(** * Shallow embedding of [encryption_src.fernet.service.FernetEncryptionHelper]

    The service is a thin wrapper around [cryptography.fernet.Fernet],
    [PBKDF2HMAC] and the [base64] module.  Byte strings are lists of
    integers in [0, 256); Python [str] values are lists of code points.
    The byte-level behaviour of the libraries the service relies on
    (CPython's [binascii] base64 codec, UTF-8 [str.encode]/[bytes.decode],
    PKCS7 padding and Fernet's token layout and checks) is written out;
    the block cipher, HMAC-SHA256 and PBKDF2 are kept as parameters with
    the laws the token format needs. *)

From Stdlib Require Import ZArith List Lia Bool.
Import ListNotations.
Open Scope Z_scope.

(** ** Python exceptions raised along the modelled paths *)

Inductive PyErr : Type :=
| MissingEncryptionKeyError
| ValueError            (* Fernet key rejected, non-ASCII str given to b64decode *)
| BinasciiError         (* binascii.Error from a2b_base64 *)
| InvalidToken          (* cryptography.fernet.InvalidToken *)
| UnicodeEncodeError
| UnicodeDecodeError
| OverflowError.        (* int.to_bytes out of range *)

Inductive result (A : Type) : Type :=
| Ok (a : A)
| Err (e : PyErr).
Arguments Ok {A} a.
Arguments Err {A} e.

Definition rbind {A B} (r : result A) (k : A -> result B) : result B :=
  match r with Ok a => k a | Err e => Err e end.

Notation "x <-? r ;; k" := (rbind r (fun x => k))
  (at level 61, r at next level, right associativity).

Definition bytes := list Z.
Definition pystr := list Z.

Definition is_byte (b : Z) : bool := (0 <=? b) && (b <? 256).
Definition bytes_ok (bs : bytes) : Prop := Forall (fun b => 0 <= b < 256) bs.

Fixpoint list_Z_eqb (a b : list Z) : bool :=
  match a, b with
  | [], [] => true
  | x :: a', y :: b' => (x =? y) && list_Z_eqb a' b'
  | _, _ => false
  end.

(** ** CPython [binascii] base64 *)

(** [table_b2a_base64]: 6-bit value to character code. *)
Definition b64_char (i : Z) : Z :=
  if i <? 26 then 65 + i
  else if i <? 52 then 97 + (i - 26)
  else if i <? 62 then 48 + (i - 52)
  else if i =? 62 then 43 else 47.

(** [table_a2b_base64]: character code to 6-bit value, 255 if not in the
    alphabet. *)
Definition a2b_index (c : Z) : Z :=
  if (65 <=? c) && (c <=? 90) then c - 65
  else if (97 <=? c) && (c <=? 122) then c - 71
  else if (48 <=? c) && (c <=? 57) then c + 4
  else if c =? 43 then 62
  else if c =? 47 then 63
  else 255.

Definition BASE64_PAD : Z := 61.

(** [binascii.b2a_base64(s, newline=False)], three input bytes at a time. *)
Fixpoint b2a_base64 (bs : bytes) : list Z :=
  match bs with
  | b0 :: b1 :: b2 :: rest =>
      b64_char (Z.shiftr b0 2)
      :: b64_char (Z.lor (Z.shiftl (Z.land b0 3) 4) (Z.shiftr b1 4))
      :: b64_char (Z.lor (Z.shiftl (Z.land b1 15) 2) (Z.shiftr b2 6))
      :: b64_char (Z.land b2 63)
      :: b2a_base64 rest
  | [b0; b1] =>
      [b64_char (Z.shiftr b0 2);
       b64_char (Z.lor (Z.shiftl (Z.land b0 3) 4) (Z.shiftr b1 4));
       b64_char (Z.shiftl (Z.land b1 15) 2);
       BASE64_PAD]
  | [b0] =>
      [b64_char (Z.shiftr b0 2);
       b64_char (Z.shiftl (Z.land b0 3) 4);
       BASE64_PAD; BASE64_PAD]
  | [] => []
  end.

(** [binascii.a2b_base64(s, strict_mode=False)]: the main loop, with its
    state [quad_pos], [leftchar] and [pads]; characters outside the
    alphabet are skipped, a complete pad sequence ends the parse
    ([goto done]), and a dangling quad at the end raises [binascii.Error]. *)
Fixpoint a2b_loop (s : list Z) (quad_pos : nat) (leftchar pads : Z)
    (out : bytes) : result bytes :=
  match s with
  | [] => match quad_pos with O => Ok out | _ => Err BinasciiError end
  | ch :: rest =>
      if ch =? BASE64_PAD then
        if (2 <=? Z.of_nat quad_pos) then
          if 4 <=? Z.of_nat quad_pos + (pads + 1) then Ok out
          else a2b_loop rest quad_pos leftchar (pads + 1) out
        else a2b_loop rest quad_pos leftchar pads out
      else
        let v := a2b_index ch in
        if 64 <=? v then a2b_loop rest quad_pos leftchar pads out
        else
          match quad_pos with
          | O => a2b_loop rest 1 v 0 out
          | 1%nat => a2b_loop rest 2 (Z.land v 15) 0
                       (out ++ [Z.lor (Z.shiftl leftchar 2) (Z.shiftr v 4)])
          | 2%nat => a2b_loop rest 3 (Z.land v 3) 0
                       (out ++ [Z.lor (Z.shiftl leftchar 4) (Z.shiftr v 2)])
          | _ => a2b_loop rest 0 0 0
                   (out ++ [Z.lor (Z.shiftl leftchar 6) v])
          end
  end.

Definition a2b_base64 (s : list Z) : result bytes := a2b_loop s 0 0 0 [].

(** [base64._urlsafe_encode_translation] and its inverse. *)
Definition urlsafe_encode_tr (c : Z) : Z :=
  if c =? 43 then 45 else if c =? 47 then 95 else c.
Definition urlsafe_decode_tr (c : Z) : Z :=
  if c =? 45 then 43 else if c =? 95 then 47 else c.

(** [base64.urlsafe_b64encode(s)]. *)
Definition urlsafe_b64encode (bs : bytes) : bytes :=
  map urlsafe_encode_tr (b2a_base64 bs).

(** [base64.urlsafe_b64decode(s)] for a [bytes] argument. *)
Definition urlsafe_b64decode (s : bytes) : result bytes :=
  a2b_base64 (map urlsafe_decode_tr s).

(** [base64._bytes_from_decode_data] on a [str]: [s.encode('ascii')], or
    [ValueError('string argument should contain only ASCII characters')]. *)
Definition bytes_from_decode_data_str (s : pystr) : result bytes :=
  if forallb (fun c => (0 <=? c) && (c <? 128)) s then Ok s else Err ValueError.

(** [base64.urlsafe_b64decode(s)] for a [str] argument. *)
Definition urlsafe_b64decode_str (s : pystr) : result bytes :=
  b <-? bytes_from_decode_data_str s ;; urlsafe_b64decode b.

(** ** UTF-8: [str.encode()] and [bytes.decode()] (strict) *)

(** One code point; a lone surrogate cannot be encoded. *)
Definition utf8_encode_char (c : Z) : option bytes :=
  if (c <? 0) || (0x10FFFF <? c) then None
  else if c <? 0x80 then Some [c]
  else if c <? 0x800 then
    Some [Z.lor 0xC0 (Z.shiftr c 6); Z.lor 0x80 (Z.land c 0x3F)]
  else if (0xD800 <=? c) && (c <=? 0xDFFF) then None
  else if c <? 0x10000 then
    Some [Z.lor 0xE0 (Z.shiftr c 12);
          Z.lor 0x80 (Z.land (Z.shiftr c 6) 0x3F);
          Z.lor 0x80 (Z.land c 0x3F)]
  else
    Some [Z.lor 0xF0 (Z.shiftr c 18);
          Z.lor 0x80 (Z.land (Z.shiftr c 12) 0x3F);
          Z.lor 0x80 (Z.land (Z.shiftr c 6) 0x3F);
          Z.lor 0x80 (Z.land c 0x3F)].

Fixpoint utf8_encode (s : pystr) : option bytes :=
  match s with
  | [] => Some []
  | c :: s' =>
      match utf8_encode_char c, utf8_encode s' with
      | Some b, Some bs => Some (b ++ bs)
      | _, _ => None
      end
  end.

Definition is_cont (b : Z) : bool := (0x80 <=? b) && (b <=? 0xBF).

Definition ocons (c : Z) (r : option pystr) : option pystr :=
  match r with Some s => Some (c :: s) | None => None end.

(** The strict decoder: overlong forms, surrogates, code points above
    U+10FFFF and truncated sequences are rejected. *)
Fixpoint utf8_decode (bs : bytes) : option pystr :=
  match bs with
  | [] => Some []
  | b0 :: r0 =>
      if (0 <=? b0) && (b0 <? 0x80) then ocons b0 (utf8_decode r0)
      else if (0xC2 <=? b0) && (b0 <=? 0xDF) then
        match r0 with
        | b1 :: r1 =>
            if is_cont b1 then
              ocons (Z.lor (Z.shiftl (Z.land b0 0x1F) 6) (Z.land b1 0x3F))
                    (utf8_decode r1)
            else None
        | [] => None
        end
      else if (0xE0 <=? b0) && (b0 <=? 0xEF) then
        match r0 with
        | b1 :: b2 :: r2 =>
            if is_cont b1 && is_cont b2 then
              let c := Z.lor (Z.shiftl (Z.land b0 0x0F) 12)
                         (Z.lor (Z.shiftl (Z.land b1 0x3F) 6) (Z.land b2 0x3F)) in
              if (c <? 0x800) || ((0xD800 <=? c) && (c <=? 0xDFFF)) then None
              else ocons c (utf8_decode r2)
            else None
        | _ => None
        end
      else if (0xF0 <=? b0) && (b0 <=? 0xF4) then
        match r0 with
        | b1 :: b2 :: b3 :: r3 =>
            if is_cont b1 && is_cont b2 && is_cont b3 then
              let c := Z.lor (Z.shiftl (Z.land b0 0x07) 18)
                         (Z.lor (Z.shiftl (Z.land b1 0x3F) 12)
                           (Z.lor (Z.shiftl (Z.land b2 0x3F) 6) (Z.land b3 0x3F))) in
              if (c <? 0x10000) || (0x10FFFF <? c) then None
              else ocons c (utf8_decode r3)
            else None
        | _ => None
        end
      else None
  end.

(** [s.encode()] on a [str]. *)
Definition str_encode (s : pystr) : result bytes :=
  match utf8_encode s with Some b => Ok b | None => Err UnicodeEncodeError end.

(** [b.decode()] on a [bytes]. *)
Definition bytes_decode (b : bytes) : result pystr :=
  match utf8_decode b with Some s => Ok s | None => Err UnicodeDecodeError end.

(** A [str] all of whose code points can be UTF-8 encoded (no lone
    surrogates). *)
Definition utf8_encodable (s : pystr) : bool :=
  match utf8_encode s with Some _ => true | None => false end.

(** ** [cryptography.hazmat.primitives.padding.PKCS7(128)] *)

Definition pkcs7_pad (data : bytes) : bytes :=
  let n := (16 - length data mod 16)%nat in
  data ++ repeat (Z.of_nat n) n.

(** The unpadder: the input must be a non-empty whole number of blocks
    whose last byte [p] is in [1, 16] and repeated [p] times. *)
Definition pkcs7_unpad (data : bytes) : option bytes :=
  let len := length data in
  if (len =? 0)%nat || negb (len mod 16 =? 0)%nat then None
  else
    let p := last data 0 in
    if (1 <=? p) && (p <=? 16)
       && forallb (fun b => b =? p) (skipn (len - Z.to_nat p) data)
    then Some (firstn (len - Z.to_nat p) data)
    else None.

(** ** [int.to_bytes(length, "big")] *)

Fixpoint be_bytes (n : nat) (t : Z) : bytes :=
  match n with
  | O => []
  | S n' => be_bytes n' (Z.shiftr t 8) ++ [Z.land t 255]
  end.

Definition int_to_bytes (n : nat) (t : Z) : result bytes :=
  if (0 <=? t) && (t <? 2 ^ (8 * Z.of_nat n)) then Ok (be_bytes n t)
  else Err OverflowError.

(** ** Cryptographic primitives

    AES-128 in CBC mode on whole blocks, HMAC and PBKDF2-HMAC, as the
    [cryptography] package's backend provides them. *)

Inductive HashAlgorithm : Type := SHA1 | SHA256 | SHA512.

Class CryptoBackend : Type := {
  aes_cbc_encrypt : bytes -> bytes -> bytes -> bytes;   (* key, iv, blocks *)
  aes_cbc_decrypt : bytes -> bytes -> bytes -> bytes;   (* key, iv, blocks *)
  hmac_digest : HashAlgorithm -> bytes -> bytes -> bytes;  (* key, message *)
  pbkdf2_hmac : HashAlgorithm -> Z -> bytes -> Z -> bytes -> bytes
    (* algorithm, length, salt, iterations, key material *)
}.

(** ** The world the service runs in

    [time.time()] and [os.urandom] are read from two streams; the helper
    object ([self]) is part of the state so that any mutation of it would
    show. *)

Record Env : Type := mkEnv {
  clock : nat -> Z;          (* int(time.time()) at its n-th reading *)
  clock_pos : nat;
  urandom : nat -> bytes;    (* os.urandom(16) at its n-th call *)
  urandom_pos : nat
}.

Record FernetEncryptionHelper : Type := mkHelper { secret_key : pystr }.

Record World : Type := mkWorld { self : FernetEncryptionHelper; env : Env }.

Definition M (A : Type) : Type := World -> result A * World.

Definition ret {A} (a : A) : M A := fun w => (Ok a, w).

Definition bind {A B} (m : M A) (k : A -> M B) : M B :=
  fun w => match m w with
           | (Ok a, w') => k a w'
           | (Err e, w') => (Err e, w')
           end.

Notation "x <- m ;; k" := (bind m (fun x => k))
  (at level 61, m at next level, right associativity).

Definition lift {A} (r : result A) : M A := fun w => (r, w).

Definition get_self : M FernetEncryptionHelper := fun w => (Ok (self w), w).

Definition time_time : M Z :=
  fun w => let e := env w in
    (Ok (clock e (clock_pos e)),
     mkWorld (self w) (mkEnv (clock e) (S (clock_pos e)) (urandom e) (urandom_pos e))).

Definition os_urandom16 : M bytes :=
  fun w => let e := env w in
    (Ok (urandom e (urandom_pos e)),
     mkWorld (self w) (mkEnv (clock e) (clock_pos e) (urandom e) (S (urandom_pos e)))).

Section Service.
Context `{CB : CryptoBackend}.

(** ** [cryptography.fernet.Fernet] *)

Record Fernet : Type := mkFernet { signing_key : bytes; encryption_key : bytes }.

Inductive KeyArg : Type := KeyStr (s : pystr) | KeyBytes (b : bytes).

(** [Fernet.__init__]: [binascii.Error] from the decoder is re-raised as
    [ValueError]; so is a key that does not decode to 32 bytes. *)
Definition fernet_init (key : KeyArg) : result Fernet :=
  let decoded :=
    match key with
    | KeyStr s => urlsafe_b64decode_str s
    | KeyBytes b => urlsafe_b64decode b
    end in
  match decoded with
  | Err BinasciiError => Err ValueError
  | Err e => Err e
  | Ok k =>
      if (length k =? 32)%nat then Ok (mkFernet (firstn 16 k) (skipn 16 k))
      else Err ValueError
  end.

(** [Fernet._encrypt_from_parts]. *)
Definition encrypt_from_parts (f : Fernet) (data : bytes) (current_time : Z)
    (iv : bytes) : result bytes :=
  let padded_data := pkcs7_pad data in
  if negb (length iv =? 16)%nat then Err ValueError      (* modes.CBC(iv) *)
  else
    let ciphertext := aes_cbc_encrypt (encryption_key f) iv padded_data in
    tb <-? int_to_bytes 8 current_time ;;
    let basic_parts := [128] ++ tb ++ iv ++ ciphertext in
    let hmac := hmac_digest SHA256 (signing_key f) basic_parts in
    Ok (urlsafe_b64encode (basic_parts ++ hmac)).

(** [Fernet.encrypt] = [encrypt_at_time(data, int(time.time()))], which
    draws [iv = os.urandom(16)]. *)
Definition fernet_encrypt (f : Fernet) (data : bytes) : M bytes :=
  current_time <- time_time ;;
  iv <- os_urandom16 ;;
  lift (encrypt_from_parts f data current_time iv).

(** [Fernet._get_unverified_token_data] followed by [Fernet._decrypt_data]
    with [ttl=None]. *)
Definition fernet_decrypt (f : Fernet) (token : bytes) : result bytes :=
  data <-? match urlsafe_b64decode token with
           | Ok d => Ok d
           | Err _ => Err InvalidToken
           end ;;
  match data with
  | [] => Err InvalidToken
  | d0 :: _ =>
      if negb (d0 =? 128) then Err InvalidToken
      else if (length data <? 9)%nat then Err InvalidToken
      else
        let n := (length data - 32)%nat in
        (* _verify_signature: HMAC over data[:-32] against data[-32:] *)
        if negb (list_Z_eqb (hmac_digest SHA256 (signing_key f) (firstn n data))
                            (skipn n data))
        then Err InvalidToken
        else
          let iv := firstn 16 (skipn 9 data) in          (* data[9:25] *)
          let ciphertext := skipn 25 (firstn n data) in  (* data[25:-32] *)
          if negb (length iv =? 16)%nat then Err ValueError
          else if negb (length ciphertext mod 16 =? 0)%nat then Err InvalidToken
          else
            match pkcs7_unpad (aes_cbc_decrypt (encryption_key f) iv ciphertext) with
            | Some unpadded => Ok unpadded
            | None => Err InvalidToken
            end
  end.

(** ** [FernetEncryptionHelper] *)

(** [__init__]: [None] stands for an absent key. *)
Definition __init__ (secret_key : option pystr) : result FernetEncryptionHelper :=
  match secret_key with
  | None | Some [] => Err MissingEncryptionKeyError
  | Some s => Ok (mkHelper s)
  end.

Definition encrypt (plaintext : pystr) : M pystr :=
  me <- get_self ;;
  f <- lift (fernet_init (KeyStr (secret_key me))) ;;
  data <- lift (str_encode plaintext) ;;
  token <- fernet_encrypt f data ;;
  lift (bytes_decode token).

Definition decrypt (encrypted_text : pystr) : M pystr :=
  me <- get_self ;;
  f <- lift (fernet_init (KeyStr (secret_key me))) ;;
  token <- lift (str_encode encrypted_text) ;;
  pt <- lift (fernet_decrypt f token) ;;
  lift (bytes_decode pt).

Definition _derive_key (salt : bytes) : M bytes :=
  me <- get_self ;;
  key_material <- lift (str_encode (secret_key me)) ;;
  ret (urlsafe_b64encode (pbkdf2_hmac SHA256 32 salt 100000 key_material)).

Definition encrypt_for_user (plaintext salt_b64 : pystr) : M pystr :=
  sb <- lift (str_encode salt_b64) ;;
  salt_bytes <- lift (urlsafe_b64decode sb) ;;
  k <- _derive_key salt_bytes ;;
  cipher <- lift (fernet_init (KeyBytes k)) ;;
  data <- lift (str_encode plaintext) ;;
  token <- fernet_encrypt cipher data ;;
  lift (bytes_decode token).

Definition decrypt_for_user (encrypted_text salt_b64 : pystr) : M pystr :=
  sb <- lift (str_encode salt_b64) ;;
  salt_bytes <- lift (urlsafe_b64decode sb) ;;
  k <- _derive_key salt_bytes ;;
  cipher <- lift (fernet_init (KeyBytes k)) ;;
  token <- lift (str_encode encrypted_text) ;;
  pt <- lift (fernet_decrypt cipher token) ;;
  lift (bytes_decode pt).

End Service.

(** ** Assumptions on the backend and the world *)

(** What the token format needs from the primitives: CBC on whole blocks
    preserves length and is inverted by decryption under the same key and
    IV; HMAC-SHA256 yields 32 bytes; PBKDF2 yields the requested length. *)
Record BackendLaws (CB : CryptoBackend) : Prop := {
  aes_encrypt_len : forall k iv m, (length m mod 16 = 0)%nat ->
    length (aes_cbc_encrypt k iv m) = length m;
  aes_encrypt_bytes : forall k iv m, bytes_ok m -> bytes_ok (aes_cbc_encrypt k iv m);
  aes_decrypt_encrypt : forall k iv m, length k = 16%nat -> length iv = 16%nat ->
    (length m mod 16 = 0)%nat -> aes_cbc_decrypt k iv (aes_cbc_encrypt k iv m) = m;
  hmac_sha256_len : forall k m, length (hmac_digest SHA256 k m) = 32%nat;
  hmac_bytes : forall alg k m, bytes_ok (hmac_digest alg k m);
  pbkdf2_len : forall alg len salt it km, 0 <= len ->
    length (pbkdf2_hmac alg len salt it km) = Z.to_nat len;
  pbkdf2_bytes : forall alg len salt it km, bytes_ok (pbkdf2_hmac alg len salt it km)
}.

(** [int(time.time())] fits the 8-byte timestamp and [os.urandom(16)]
    returns 16 bytes. *)
Definition env_ok (e : Env) : Prop :=
  (forall n, 0 <= clock e n < 2 ^ 64) /\
  (forall n, length (urandom e n) = 16%nat /\ bytes_ok (urandom e n)).

(** [Fernet(secret)] accepts the string as a key. *)
Definition is_fernet_key (s : pystr) : bool :=
  match fernet_init (KeyStr s) with Ok _ => true | Err _ => false end.

(** The IV that the next [os.urandom(16)] call returns. *)
Definition next_iv (w : World) : bytes := urandom (env w) (urandom_pos (env w)).

(** An executable stand-in backend, used only to run the model on concrete
    inputs: the "cipher" is the identity and the "MAC" and "KDF" are byte
    sums.  It satisfies [BackendLaws] but has no security at all. *)
Definition zsum (l : list Z) : Z := fold_left Z.add l 0.

#[export] Instance ToyBackend : CryptoBackend := {|
  aes_cbc_encrypt := fun _ _ m => m;
  aes_cbc_decrypt := fun _ _ m => m;
  hmac_digest := fun _ k m => repeat ((zsum k + 3 * zsum m) mod 256) 32;
  pbkdf2_hmac := fun _ len salt _ km =>
    map (fun i => (Z.of_nat i * 7 + zsum salt + zsum km) mod 256) (seq 0 (Z.to_nat len))
|}.

(** A world for the examples: a fixed clock and a counter-valued IV source. *)
Definition toy_env : Env :=
  mkEnv (fun _ => 1700000000) 0 (fun n => repeat (Z.of_nat n mod 256) 16) 0.

(** A valid Fernet key: the URL-safe base64 of the bytes 0..31. *)
Definition toy_key : pystr := urlsafe_b64encode (map Z.of_nat (seq 0 32)).

(** [str] literals of the examples, as code points. *)
Definition str_AA : pystr := [65; 65; 61; 61].          (* "AA==" *)
Definition str_AB : pystr := [65; 66; 61; 61].          (* "AB==" *)
Definition str_AAAA : pystr := [65; 65; 65; 65].        (* "AAAA" *)
Definition str_AAAB : pystr := [65; 65; 65; 66].        (* "AAAB" *)
Definition str_k1 : pystr := [107; 49].                 (* "k1" *)
Definition str_not_b64 : pystr :=                       (* "not-a-base64!!" *)
  [110; 111; 116; 45; 97; 45; 98; 97; 115; 101; 54; 52; 33; 33].
Definition str_AAA : pystr := [65; 65; 65].             (* "AAA" *)
Definition str_super_secret : pystr :=                  (* "super-secret" *)
  [115; 117; 112; 101; 114; 45; 115; 101; 99; 114; 101; 116].

(** The unsigned payload [_encrypt_from_parts] builds:
    version, timestamp, IV and ciphertext. *)
Definition basic_parts `{CryptoBackend} (f : Fernet) (data : bytes) (current_time : Z)
    (iv : bytes) : bytes :=
  [128] ++ be_bytes 8 current_time ++ iv
  ++ aes_cbc_encrypt (encryption_key f) iv (pkcs7_pad data).

(** The whole token [_encrypt_from_parts] returns, before [.decode()]. *)
Definition fernet_token `{CryptoBackend} (f : Fernet) (data : bytes) (current_time : Z)
    (iv : bytes) : bytes :=
  urlsafe_b64encode (basic_parts f data current_time iv
    ++ hmac_digest SHA256 (signing_key f) (basic_parts f data current_time iv)).

(** The [Fernet] object [encrypt_for_user]/[decrypt_for_user] build from
    salt bytes and the encoded secret: the two halves of the derived key. *)
Definition user_fernet `{CryptoBackend} (salt pw : bytes) : Fernet :=
  let raw := pbkdf2_hmac SHA256 32 salt 100000 pw in
  mkFernet (firstn 16 raw) (skipn 16 raw).

(** The reading of [time.time()] the next call makes. *)
Definition now (w : World) : Z := clock (env w) (clock_pos (env w)).

(** The world after one [time.time()] and one [os.urandom(16)]. *)
Definition advance (w : World) : World :=
  mkWorld (self w) (mkEnv (clock (env w)) (S (clock_pos (env w)))
                          (urandom (env w)) (S (urandom_pos (env w)))).

(** A computation whose final world has the same helper object. *)
Definition preserves_self {A} (m : M A) : Prop :=
  forall w, self (snd (m w)) = self w.

(** Code points or bytes below 128. *)
Definition ascii_ok (s : list Z) : Prop := Forall (fun c => 0 <= c < 128) s.

(** The [str] with the character at position [n] replaced by the next
    code point. *)
Definition bump_at (n : nat) (s : pystr) : pystr :=
  firstn n s ++ (nth n s 0 + 1) :: skipn (S n) s.

(** The helper constructed with [toy_key], in [toy_env]. *)
Definition toy_world : World := mkWorld (mkHelper toy_key) toy_env.

(** The characters of the URL-safe base64 alphabet. *)
Definition urlsafe_alphabet (c : Z) : Prop :=
  (65 <= c <= 90) \/ (97 <= c <= 122) \/ (48 <= c <= 57) \/ c = 45 \/ c = 95.

(** The code points [str.encode()] accepts: Unicode scalar values. *)
Definition scalar_value (c : Z) : Prop :=
  0 <= c <= 0x10FFFF /\ ~ (0xD800 <= c <= 0xDFFF).

(** The token [encrypt] returns for ["super-secret"] in [toy_world], and
    its decoding. *)
Definition toy_token : pystr :=
  match fst (encrypt str_super_secret toy_world) with Ok t => t | Err _ => [] end.

Definition toy_token_bytes : bytes :=
  match urlsafe_b64decode toy_token with Ok d => d | Err _ => [] end.

Definition str_invalid_data : pystr :=                  (* "invalid-data" *)
  [105; 110; 118; 97; 108; 105; 100; 45; 100; 97; 116; 97].

(** ** Bit-level helpers *)

Ltac zcase :=
  repeat match goal with
  | |- context [?a <? ?b] => destruct (Z.ltb_spec a b)
  | |- context [?a <=? ?b] => destruct (Z.leb_spec a b)
  | |- context [?a =? ?b] => destruct (Z.eqb_spec a b)
  | _ : context [?a <? ?b] |- _ => destruct (Z.ltb_spec a b)
  | _ : context [?a <=? ?b] |- _ => destruct (Z.leb_spec a b)
  | _ : context [?a =? ?b] |- _ => destruct (Z.eqb_spec a b)
  end; cbv beta iota delta [andb orb negb] in *; try (reflexivity || lia).

Ltac zarith :=
  repeat match goal with
  | |- context [2 ^ ?k] => let v := eval compute in (2 ^ k) in change (2 ^ k) with v
  end;
  Z.div_mod_to_equations; lia.

Lemma lor_shiftl_low (a b n : Z) :
  0 <= n -> 0 <= b < 2 ^ n -> Z.lor (Z.shiftl a n) b = a * 2 ^ n + b.
Proof.
  intros Hn Hb.
  rewrite <- Z.shiftl_mul_pow2 by lia.
  assert (Hd : Z.land (Z.shiftl a n) b = 0).
  { apply Z.bits_inj'; intros i Hi.
    rewrite Z.land_spec, Z.bits_0, Z.shiftl_spec by lia.
    destruct (Z.lt_ge_cases i n) as [Hlt|Hge].
    - rewrite Z.testbit_neg_r by lia. reflexivity.
    - destruct (Z.eq_dec b 0) as [->|Hb0].
      + rewrite Z.bits_0. apply andb_false_r.
      + rewrite (Z.bits_above_log2 b i); [apply andb_false_r|lia|].
        assert (Z.log2 b < n) by (apply Z.log2_lt_pow2; lia). lia. }
  rewrite Z.add_nocarry_lxor, Z.lxor_lor by exact Hd. reflexivity.
Qed.

Lemma land_low (a n m : Z) : 0 <= n -> m = Z.ones n -> Z.land a m = a mod 2 ^ n.
Proof. intros Hn ->. apply Z.land_ones; lia. Qed.

Lemma shiftr_div (a n : Z) : 0 <= n -> Z.shiftr a n = a / 2 ^ n.
Proof. apply Z.shiftr_div_pow2. Qed.

Lemma shiftl_mul (a n : Z) : 0 <= n -> Z.shiftl a n = a * 2 ^ n.
Proof. apply Z.shiftl_mul_pow2. Qed.

(** Every 6-bit value is a character of the alphabet, which the decoder
    maps back to it, and which survives the URL-safe translations. *)
Lemma b64_char_digit (i : Z) : 0 <= i < 64 ->
  (b64_char i =? BASE64_PAD) = false /\ a2b_index (b64_char i) = i /\
  urlsafe_decode_tr (urlsafe_encode_tr (b64_char i)) = b64_char i.
Proof.
  intros Hi. unfold b64_char, BASE64_PAD.
  destruct (Z.ltb_spec i 26); [|destruct (Z.ltb_spec i 52);
    [|destruct (Z.ltb_spec i 62); [|destruct (Z.eqb_spec i 62)]]];
  unfold a2b_index, urlsafe_decode_tr, urlsafe_encode_tr; repeat split; zcase.
Qed.

Lemma a2b_loop_digit (i : Z) rest quad_pos leftchar pads out :
  0 <= i < 64 ->
  a2b_loop (b64_char i :: rest) quad_pos leftchar pads out =
  match quad_pos with
  | O => a2b_loop rest 1 i 0 out
  | 1%nat => a2b_loop rest 2 (Z.land i 15) 0
               (out ++ [Z.lor (Z.shiftl leftchar 2) (Z.shiftr i 4)])
  | 2%nat => a2b_loop rest 3 (Z.land i 3) 0
               (out ++ [Z.lor (Z.shiftl leftchar 4) (Z.shiftr i 2)])
  | _ => a2b_loop rest 0 0 0 (out ++ [Z.lor (Z.shiftl leftchar 6) i])
  end.
Proof.
  intros Hi. destruct (b64_char_digit i Hi) as (Hp & Hx & _).
  cbn [a2b_loop]. rewrite Hp, Hx.
  destruct (Z.leb_spec 64 i); [lia|]. reflexivity.
Qed.

Lemma urlsafe_rt_digit (i : Z) : 0 <= i < 64 ->
  urlsafe_decode_tr (urlsafe_encode_tr (b64_char i)) = b64_char i.
Proof. intros Hi. apply (b64_char_digit i Hi). Qed.

Lemma urlsafe_rt_pad : urlsafe_decode_tr (urlsafe_encode_tr BASE64_PAD) = BASE64_PAD.
Proof. reflexivity. Qed.

(** A pad ends the parse once it completes a quad. *)
Lemma a2b_loop_pad3 rest leftchar out :
  a2b_loop (BASE64_PAD :: rest) 3 leftchar 0 out = Ok out.
Proof. reflexivity. Qed.

Lemma a2b_loop_pad2 rest leftchar out :
  a2b_loop (BASE64_PAD :: BASE64_PAD :: rest) 2 leftchar 0 out = Ok out.
Proof. reflexivity. Qed.

(** The encoder's and decoder's bit fields, as arithmetic. *)
Lemma enc_field1 (b0 b1 : Z) : 0 <= b1 < 256 ->
  Z.lor (Z.shiftl (Z.land b0 3) 4) (Z.shiftr b1 4) = b0 mod 4 * 16 + b1 / 16.
Proof.
  intros H. rewrite lor_shiftl_low by (rewrite ?shiftr_div; cbn; zarith).
  rewrite land_low with (n := 2) by reflexivity + lia.
  rewrite shiftr_div by lia. reflexivity.
Qed.

Lemma enc_field2 (b1 b2 : Z) : 0 <= b2 < 256 ->
  Z.lor (Z.shiftl (Z.land b1 15) 2) (Z.shiftr b2 6) = b1 mod 16 * 4 + b2 / 64.
Proof.
  intros H. rewrite lor_shiftl_low by (rewrite ?shiftr_div; cbn; zarith).
  rewrite land_low with (n := 4) by reflexivity + lia.
  rewrite shiftr_div by lia. reflexivity.
Qed.

Lemma enc_field1_last (b0 : Z) : Z.shiftl (Z.land b0 3) 4 = b0 mod 4 * 16.
Proof. rewrite shiftl_mul, land_low with (n := 2); reflexivity + lia. Qed.

Lemma enc_field2_last (b1 : Z) : Z.shiftl (Z.land b1 15) 2 = b1 mod 16 * 4.
Proof. rewrite shiftl_mul, land_low with (n := 4); reflexivity + lia. Qed.

Lemma dec_field1 (lc v : Z) : 0 <= v < 64 ->
  Z.lor (Z.shiftl lc 2) (Z.shiftr v 4) = lc * 4 + v / 16.
Proof.
  intros H. rewrite lor_shiftl_low by (rewrite ?shiftr_div; cbn; zarith).
  rewrite shiftr_div by lia. reflexivity.
Qed.

Lemma dec_field2 (lc v : Z) : 0 <= v < 64 ->
  Z.lor (Z.shiftl lc 4) (Z.shiftr v 2) = lc * 16 + v / 4.
Proof.
  intros H. rewrite lor_shiftl_low by (rewrite ?shiftr_div; cbn; zarith).
  rewrite shiftr_div by lia. reflexivity.
Qed.

Lemma dec_field3 (lc v : Z) : 0 <= v < 64 ->
  Z.lor (Z.shiftl lc 6) v = lc * 64 + v.
Proof. intros H. rewrite lor_shiftl_low by (cbn; lia). reflexivity. Qed.

Lemma land15 (v : Z) : Z.land v 15 = v mod 16.
Proof. apply land_low with (n := 4); reflexivity + lia. Qed.

Lemma land3 (v : Z) : Z.land v 3 = v mod 4.
Proof. apply land_low with (n := 2); reflexivity + lia. Qed.

Lemma land63 (v : Z) : Z.land v 63 = v mod 64.
Proof. apply land_low with (n := 6); reflexivity + lia. Qed.

Ltac b64_step :=
  rewrite a2b_loop_digit by (rewrite ?land15, ?land3; zarith);
  cbn iota beta.

(** Decoding what [b2a_base64] produced, after the URL-safe translation
    and its inverse, gives back the input bytes. *)
Lemma a2b_loop_b2a (bs out : bytes) : bytes_ok bs ->
  a2b_loop (map urlsafe_decode_tr (map urlsafe_encode_tr (b2a_base64 bs))) 0 0 0 out
  = Ok (out ++ bs).
Proof.
  remember (length bs) as n eqn:Hn.
  revert bs out Hn. induction n as [n IH] using lt_wf_ind.
  intros bs out Hn Hok.
  destruct bs as [|b0 [|b1 [|b2 rest]]].
  - rewrite app_nil_r. reflexivity.
  - inversion Hok as [|? ? Hb0 _]; subst.
    cbn [b2a_base64 map]. rewrite enc_field1_last, shiftr_div by lia.
    rewrite !urlsafe_rt_digit by zarith. rewrite urlsafe_rt_pad.
    b64_step. b64_step. rewrite a2b_loop_pad2.
    rewrite dec_field1 by zarith. repeat f_equal; zarith.
  - inversion Hok as [|? ? Hb0 Hok1]; inversion Hok1 as [|? ? Hb1 _]; subst.
    cbn [b2a_base64 map]. rewrite enc_field2_last, enc_field1, shiftr_div by lia.
    rewrite !urlsafe_rt_digit by zarith. rewrite urlsafe_rt_pad.
    b64_step. b64_step. b64_step. rewrite a2b_loop_pad3.
    rewrite dec_field1, dec_field2, land15 by zarith.
    rewrite <- app_assoc. cbn [app]. repeat f_equal; zarith.
  - inversion Hok as [|? ? Hb0 Hok1]; inversion Hok1 as [|? ? Hb1 Hok2];
      inversion Hok2 as [|? ? Hb2 Hok3]; subst.
    cbn [b2a_base64 map]. rewrite enc_field2, enc_field1, land63, shiftr_div by lia.
    rewrite !urlsafe_rt_digit by zarith.
    b64_step. b64_step. b64_step. b64_step.
    rewrite (IH (length rest)) by (cbn; lia || reflexivity || assumption).
    rewrite dec_field1, dec_field2, dec_field3, land15, land3 by zarith.
    rewrite <- !app_assoc. cbn [app]. repeat f_equal; zarith.
Qed.

(** [urlsafe_b64decode(urlsafe_b64encode(bs)) == bs] for every [bytes]. *)
Lemma urlsafe_b64_roundtrip (bs : bytes) : bytes_ok bs ->
  urlsafe_b64decode (urlsafe_b64encode bs) = Ok bs.
Proof.
  intros H. unfold urlsafe_b64decode, urlsafe_b64encode, a2b_base64.
  rewrite a2b_loop_b2a by exact H. reflexivity.
Qed.

(** ** UTF-8 *)

Lemma lor_add_low (a b n : Z) :
  0 <= n -> 0 <= b < 2 ^ n -> a mod 2 ^ n = 0 -> Z.lor a b = a + b.
Proof.
  intros Hn Hb Ha.
  assert (Hp : 0 < 2 ^ n) by (apply Z.pow_pos_nonneg; lia).
  assert (Hq : a = Z.shiftl (a / 2 ^ n) n).
  { rewrite Z.shiftl_mul_pow2 by lia.
    pose proof (Z.div_mod a (2 ^ n) ltac:(lia)). lia. }
  rewrite Hq, lor_shiftl_low by lia. rewrite Z.shiftl_mul_pow2 by lia. reflexivity.
Qed.

Ltac bits_to_arith :=
  repeat match goal with
  | |- context [Z.land ?x ?K] =>
      let n := eval compute in (Z.log2 (K + 1)) in
      rewrite (land_low x n K) by (reflexivity || lia)
  | |- context [Z.shiftr ?x ?k] => rewrite (shiftr_div x k) by lia
  | |- context [Z.shiftl ?x ?k] => rewrite (shiftl_mul x k) by lia
  end.

Ltac lor_to_add :=
  repeat match goal with
  | |- context [Z.lor ?a ?b] =>
      lazymatch b with
      | context [Z.lor _ _] => fail
      | _ => first [ rewrite (lor_add_low a b 3) by zarith
                   | rewrite (lor_add_low a b 4) by zarith
                   | rewrite (lor_add_low a b 6) by zarith
                   | rewrite (lor_add_low a b 12) by zarith
                   | rewrite (lor_add_low a b 18) by zarith ]
      end
  end.

(** The decoder's behaviour on each well-formed sequence length. *)
Lemma utf8_decode_1 (b0 : Z) rest : 0 <= b0 < 0x80 ->
  utf8_decode (b0 :: rest) = ocons b0 (utf8_decode rest).
Proof.
  intros H. cbn [utf8_decode].
  destruct (Z.leb_spec 0 b0); [|lia]. destruct (Z.ltb_spec b0 0x80); [|lia].
  reflexivity.
Qed.

Lemma utf8_decode_2 (b0 b1 : Z) rest : 0xC2 <= b0 <= 0xDF -> is_cont b1 = true ->
  utf8_decode (b0 :: b1 :: rest) =
  ocons (Z.lor (Z.shiftl (Z.land b0 0x1F) 6) (Z.land b1 0x3F)) (utf8_decode rest).
Proof.
  intros H H1. cbn [utf8_decode].
  destruct (Z.ltb_spec b0 0x80); [lia|]. rewrite andb_false_r.
  destruct (Z.leb_spec 0xC2 b0); [|lia]. destruct (Z.leb_spec b0 0xDF); [|lia].
  cbn [andb]. rewrite H1. reflexivity.
Qed.

Lemma utf8_decode_3 (b0 b1 b2 : Z) rest : 0xE0 <= b0 <= 0xEF ->
  is_cont b1 = true -> is_cont b2 = true ->
  let c := Z.lor (Z.shiftl (Z.land b0 0x0F) 12)
             (Z.lor (Z.shiftl (Z.land b1 0x3F) 6) (Z.land b2 0x3F)) in
  0x800 <= c -> ~ (0xD800 <= c <= 0xDFFF) ->
  utf8_decode (b0 :: b1 :: b2 :: rest) = ocons c (utf8_decode rest).
Proof.
  intros H H1 H2 c Hc Hs. cbn [utf8_decode].
  destruct (Z.ltb_spec b0 0x80); [lia|]. rewrite andb_false_r.
  destruct (Z.leb_spec 0xC2 b0); destruct (Z.leb_spec b0 0xDF); try lia; cbn [andb].
  destruct (Z.leb_spec 0xE0 b0); [|lia]. destruct (Z.leb_spec b0 0xEF); [|lia].
  cbn [andb]. rewrite H1, H2. cbn [andb]. fold c.
  destruct (Z.ltb_spec c 0x800); [lia|].
  destruct (Z.leb_spec 0xD800 c); destruct (Z.leb_spec c 0xDFFF); try lia;
    reflexivity.
Qed.

Lemma utf8_decode_4 (b0 b1 b2 b3 : Z) rest : 0xF0 <= b0 <= 0xF4 ->
  is_cont b1 = true -> is_cont b2 = true -> is_cont b3 = true ->
  let c := Z.lor (Z.shiftl (Z.land b0 0x07) 18)
             (Z.lor (Z.shiftl (Z.land b1 0x3F) 12)
               (Z.lor (Z.shiftl (Z.land b2 0x3F) 6) (Z.land b3 0x3F))) in
  0x10000 <= c <= 0x10FFFF ->
  utf8_decode (b0 :: b1 :: b2 :: b3 :: rest) = ocons c (utf8_decode rest).
Proof.
  intros H H1 H2 H3 c Hc. cbn [utf8_decode].
  destruct (Z.ltb_spec b0 0x80); [lia|]. rewrite andb_false_r.
  destruct (Z.leb_spec 0xC2 b0); destruct (Z.leb_spec b0 0xDF); try lia; cbn [andb].
  destruct (Z.leb_spec 0xE0 b0); destruct (Z.leb_spec b0 0xEF); try lia; cbn [andb].
  destruct (Z.leb_spec 0xF0 b0); [|lia]. destruct (Z.leb_spec b0 0xF4); [|lia].
  cbn [andb]. rewrite H1, H2, H3. cbn [andb]. fold c.
  destruct (Z.ltb_spec c 0x10000); [lia|].
  destruct (Z.ltb_spec 0x10FFFF c); [lia|]. reflexivity.
Qed.

Lemma is_cont_byte (x : Z) : is_cont (Z.lor 0x80 (Z.land x 0x3F)) = true.
Proof.
  unfold is_cont. bits_to_arith. lor_to_add.
  apply andb_true_intro; split; apply Z.leb_le; zarith.
Qed.

(** [Some x = Some b] to [b = x] without reducing [x]. *)
Ltac some_inj H :=
  apply (f_equal (fun o : option bytes => match o with Some x => x | None => [] end)) in H;
  cbv beta iota in H; subst.

Ltac utf8_range := bits_to_arith; lor_to_add; zarith.

Lemma utf8_decode_char (c : Z) (b rest : bytes) :
  utf8_encode_char c = Some b -> utf8_decode (b ++ rest) = ocons c (utf8_decode rest).
Proof.
  unfold utf8_encode_char. intros H.
  destruct (Z.ltb_spec c 0); [discriminate|].
  destruct (Z.ltb_spec 0x10FFFF c); [discriminate|].
  cbv beta iota delta [orb andb] in H.
  destruct (Z.ltb_spec c 0x80).
  { some_inj H. apply utf8_decode_1. lia. }
  destruct (Z.ltb_spec c 0x800).
  { some_inj H. rewrite <- !app_comm_cons, app_nil_l.
    rewrite utf8_decode_2 by (apply is_cont_byte || utf8_range).
    f_equal. utf8_range. }
  destruct (Z.leb_spec 0xD800 c); destruct (Z.leb_spec c 0xDFFF);
    cbv beta iota delta [andb] in H; try (exfalso; discriminate H).
  all: destruct (Z.ltb_spec c 0x10000); some_inj H;
    rewrite <- !app_comm_cons, app_nil_l.
  all: try (rewrite utf8_decode_3 by (apply is_cont_byte || utf8_range);
            f_equal; utf8_range).
  all: rewrite utf8_decode_4 by (apply is_cont_byte || utf8_range);
       f_equal; utf8_range.
Qed.

Lemma utf8_decode_encode (s : pystr) (bs : bytes) :
  utf8_encode s = Some bs -> utf8_decode bs = Some s.
Proof.
  revert bs. induction s as [|c s IH]; intros bs H.
  - cbn in H. injection H as <-. reflexivity.
  - cbn [utf8_encode] in H.
    destruct (utf8_encode_char c) as [b|] eqn:Ec; [|discriminate].
    destruct (utf8_encode s) as [bs'|] eqn:Es; [|discriminate].
    injection H as <-. rewrite (utf8_decode_char c b bs' Ec), (IH bs' eq_refl).
    reflexivity.
Qed.

Lemma utf8_encode_char_bytes (c : Z) (b : bytes) :
  utf8_encode_char c = Some b -> bytes_ok b.
Proof.
  unfold utf8_encode_char. intros H.
  destruct (Z.ltb_spec c 0); [discriminate|].
  destruct (Z.ltb_spec 0x10FFFF c); [discriminate|].
  cbv beta iota delta [orb andb] in H.
  destruct (Z.ltb_spec c 0x80).
  { some_inj H. repeat constructor; lia. }
  destruct (Z.ltb_spec c 0x800).
  { some_inj H. repeat constructor; utf8_range. }
  destruct (Z.leb_spec 0xD800 c); destruct (Z.leb_spec c 0xDFFF);
    cbv beta iota delta [andb] in H; try (exfalso; discriminate H).
  all: destruct (Z.ltb_spec c 0x10000); some_inj H; repeat constructor; utf8_range.
Qed.

Lemma utf8_encode_bytes (s : pystr) (bs : bytes) :
  utf8_encode s = Some bs -> bytes_ok bs.
Proof.
  revert bs. induction s as [|c s IH]; intros bs H.
  - cbn in H. injection H as <-. constructor.
  - cbn [utf8_encode] in H.
    destruct (utf8_encode_char c) as [b|] eqn:Ec; [|discriminate].
    destruct (utf8_encode s) as [bs'|] eqn:Es; [|discriminate].
    injection H as <-. apply Forall_app. split.
    + exact (utf8_encode_char_bytes c b Ec).
    + exact (IH bs' eq_refl).
Qed.

Lemma utf8_decode_ascii (bs : bytes) : ascii_ok bs -> utf8_decode bs = Some bs.
Proof.
  induction 1 as [|b bs Hb _ IH]; [reflexivity|].
  rewrite utf8_decode_1 by lia. rewrite IH. reflexivity.
Qed.

Lemma utf8_encode_ascii (s : pystr) : ascii_ok s -> utf8_encode s = Some s.
Proof.
  induction 1 as [|c s Hc _ IH]; [reflexivity|].
  cbn [utf8_encode]. rewrite IH. unfold utf8_encode_char.
  destruct (Z.ltb_spec c 0); [lia|]. destruct (Z.ltb_spec 0x10FFFF c); [lia|].
  destruct (Z.ltb_spec c 0x80); [|lia]. reflexivity.
Qed.

Lemma b64_char_ascii (i : Z) : 0 <= i < 64 ->
  0 <= urlsafe_encode_tr (b64_char i) < 128.
Proof. intros Hi. unfold urlsafe_encode_tr, b64_char. zcase. Qed.

Lemma urlsafe_b64encode_ascii (bs : bytes) : bytes_ok bs ->
  ascii_ok (urlsafe_b64encode bs).
Proof.
  unfold urlsafe_b64encode, ascii_ok.
  remember (length bs) as n eqn:Hn.
  revert bs Hn. induction n as [n IH] using lt_wf_ind.
  intros bs Hn Hok.
  destruct bs as [|b0 [|b1 [|b2 rest]]].
  - constructor.
  - inversion Hok as [|? ? Hb0 _]; subst.
    cbn [b2a_base64 map]. rewrite enc_field1_last, shiftr_div by lia.
    repeat constructor; try apply b64_char_ascii; try zarith; cbv; congruence.
  - inversion Hok as [|? ? Hb0 Hok1]; inversion Hok1 as [|? ? Hb1 _]; subst.
    cbn [b2a_base64 map]. rewrite enc_field2_last, enc_field1, shiftr_div by lia.
    repeat constructor; try apply b64_char_ascii; try zarith; cbv; congruence.
  - inversion Hok as [|? ? Hb0 Hok1]; inversion Hok1 as [|? ? Hb1 Hok2];
      inversion Hok2 as [|? ? Hb2 Hok3]; subst.
    cbn [b2a_base64 map]. rewrite enc_field2, enc_field1, land63, shiftr_div by lia.
    repeat (apply Forall_cons; [apply b64_char_ascii; zarith|]).
    apply (IH (length rest)); [cbn; lia|reflexivity|assumption].
Qed.

(** ** PKCS7 *)

Lemma pkcs7_pad_len (data : bytes) : (length (pkcs7_pad data) mod 16 = 0)%nat.
Proof.
  unfold pkcs7_pad. rewrite length_app, repeat_length.
  pose proof (Nat.mod_upper_bound (length data) 16 ltac:(lia)).
  rewrite (Nat.div_mod_eq (length data) 16) at 1.
  replace (16 * (length data / 16) + length data mod 16 + (16 - length data mod 16))%nat
    with ((length data / 16 + 1) * 16)%nat by lia.
  apply Nat.Div0.mod_mul.
Qed.

Lemma pkcs7_pad_bytes (data : bytes) : bytes_ok data -> bytes_ok (pkcs7_pad data).
Proof.
  intros H. unfold pkcs7_pad. apply Forall_app. split; [exact H|].
  apply Forall_forall. intros x Hx. apply repeat_spec in Hx. subst.
  pose proof (Nat.mod_upper_bound (length data) 16 ltac:(lia)). lia.
Qed.

Lemma pkcs7_unpad_pad (data : bytes) : pkcs7_unpad (pkcs7_pad data) = Some data.
Proof.
  pose proof (pkcs7_pad_len data) as Hl.
  unfold pkcs7_unpad. rewrite Hl.
  unfold pkcs7_pad in *. set (n := (16 - length data mod 16)%nat) in *.
  assert (Hn : (1 <= n <= 16)%nat).
  { pose proof (Nat.mod_upper_bound (length data) 16 ltac:(lia)). lia. }
  rewrite length_app, repeat_length.
  destruct (Nat.eqb_spec (length data + n) 0); [lia|]. cbn [orb negb Nat.eqb].
  assert (Hlast : last (data ++ repeat (Z.of_nat n) n) 0 = Z.of_nat n).
  { destruct n as [|n']; [lia|].
    replace (repeat (Z.of_nat (S n')) (S n'))
      with (repeat (Z.of_nat (S n')) n' ++ [Z.of_nat (S n')])
      by (rewrite <- repeat_cons; reflexivity).
    rewrite app_assoc. apply last_last. }
  rewrite Hlast, Nat2Z.id.
  replace (length data + n - n)%nat with (length data) by lia.
  rewrite skipn_app, skipn_all, Nat.sub_diag, skipn_O, app_nil_l.
  rewrite firstn_app, firstn_all, Nat.sub_diag, firstn_O, app_nil_r.
  assert (Hall : forallb (fun b => b =? Z.of_nat n) (repeat (Z.of_nat n) n) = true).
  { apply forallb_forall. intros x Hx. apply repeat_spec in Hx. subst.
    apply Z.eqb_refl. }
  rewrite Hall.
  destruct (Z.leb_spec 1 (Z.of_nat n)); [|lia].
  destruct (Z.leb_spec (Z.of_nat n) 16); [|lia]. reflexivity.
Qed.

(** ** Fernet tokens *)

Lemma be_bytes_len (n : nat) (t : Z) : length (be_bytes n t) = n.
Proof.
  revert t. induction n as [|n IH]; intros t; [reflexivity|].
  cbn [be_bytes]. rewrite length_app, IH. cbn. lia.
Qed.

Lemma be_bytes_ok (n : nat) (t : Z) : bytes_ok (be_bytes n t).
Proof.
  revert t. induction n as [|n IH]; intros t; [constructor|].
  cbn [be_bytes]. apply Forall_app. split; [apply IH|].
  constructor; [|constructor]. rewrite (land_low t 8 255) by (reflexivity || lia).
  zarith.
Qed.

Lemma list_Z_eqb_spec (a b : list Z) : list_Z_eqb a b = true <-> a = b.
Proof.
  revert b. induction a as [|x a IH]; intros [|y b]; cbn; try (split; congruence).
  rewrite andb_true_iff, Z.eqb_eq, IH. split; [intros [-> ->]; reflexivity|].
  intros H; injection H as -> ->. split; reflexivity.
Qed.

Lemma list_Z_eqb_refl (a : list Z) : list_Z_eqb a a = true.
Proof. apply list_Z_eqb_spec. reflexivity. Qed.

Section FernetProofs.
Context {CB : CryptoBackend}.
Hypothesis HL : BackendLaws CB.

Lemma encrypt_from_parts_ok (f : Fernet) (data : bytes) (t : Z) (iv : bytes) :
  length iv = 16%nat -> 0 <= t < 2 ^ 64 ->
  encrypt_from_parts f data t iv =
  Ok (urlsafe_b64encode (basic_parts f data t iv
        ++ hmac_digest SHA256 (signing_key f) (basic_parts f data t iv))).
Proof.
  intros Hiv Ht. unfold encrypt_from_parts, int_to_bytes.
  rewrite Hiv. cbn [Nat.eqb negb].
  destruct (Z.leb_spec 0 t); [|lia].
  destruct (Z.ltb_spec t (2 ^ (8 * Z.of_nat 8))); [|cbn in *; lia].
  reflexivity.
Qed.

Lemma basic_parts_bytes (f : Fernet) (data : bytes) (t : Z) (iv : bytes) :
  bytes_ok data -> bytes_ok iv -> bytes_ok (basic_parts f data t iv).
Proof.
  intros Hd Hiv. unfold basic_parts.
  apply Forall_app; split; [repeat constructor; lia|].
  apply Forall_app; split; [apply be_bytes_ok|].
  apply Forall_app; split; [exact Hiv|].
  apply (aes_encrypt_bytes CB HL), pkcs7_pad_bytes, Hd.
Qed.

(** [decrypt] on the URL-safe base64 of [basic ++ tag]: the MAC over
    [basic] is checked against [tag] before anything else is looked at. *)
Lemma fernet_decrypt_bad_mac (f : Fernet) (basic tag : bytes) :
  bytes_ok (basic ++ tag) -> hd 0 basic = 128 -> length tag = 32%nat ->
  list_Z_eqb (hmac_digest SHA256 (signing_key f) basic) tag = false ->
  fernet_decrypt f (urlsafe_b64encode (basic ++ tag)) = Err InvalidToken.
Proof.
  intros Hok Hhd Htag Hmac. unfold fernet_decrypt.
  rewrite urlsafe_b64_roundtrip by exact Hok. unfold rbind.
  destruct basic as [|d0 basic']; [cbn in Hhd; discriminate|].
  cbn in Hhd. subst d0. rewrite <- app_comm_cons.
  rewrite Z.eqb_refl. cbn [negb length].
  rewrite length_app, Htag.
  destruct (Nat.ltb_spec (S (length basic' + 32)) 9); [lia|].
  replace (S (length basic' + 32) - 32)%nat with (length (128 :: basic')) by (cbn; lia).
  rewrite app_comm_cons, firstn_app, firstn_all, Nat.sub_diag, firstn_O, app_nil_r.
  rewrite skipn_app, skipn_all, Nat.sub_diag, skipn_O, app_nil_l.
  rewrite Hmac. reflexivity.
Qed.

Lemma fernet_decrypt_bad_mac_decoded (f : Fernet) (tb basic tag : bytes) :
  urlsafe_b64decode tb = Ok (basic ++ tag) -> hd 0 basic = 128 -> length tag = 32%nat ->
  list_Z_eqb (hmac_digest SHA256 (signing_key f) basic) tag = false ->
  fernet_decrypt f tb = Err InvalidToken.
Proof.
  intros Hd Hhd Htag Hmac. unfold fernet_decrypt.
  rewrite Hd. unfold rbind.
  destruct basic as [|d0 basic']; [cbn in Hhd; discriminate|].
  cbn in Hhd. subst d0. rewrite <- app_comm_cons.
  rewrite Z.eqb_refl. cbn [negb length].
  rewrite length_app, Htag.
  destruct (Nat.ltb_spec (S (length basic' + 32)) 9); [lia|].
  replace (S (length basic' + 32) - 32)%nat with (length (128 :: basic')) by (cbn; lia).
  rewrite app_comm_cons, firstn_app, firstn_all, Nat.sub_diag, firstn_O, app_nil_r.
  rewrite skipn_app, skipn_all, Nat.sub_diag, skipn_O, app_nil_l.
  rewrite Hmac. reflexivity.
Qed.

Lemma fernet_decrypt_good_mac (f : Fernet) (tb iv ct : bytes) :
  let basic := [128] ++ tb ++ iv ++ ct in
  bytes_ok (basic ++ hmac_digest SHA256 (signing_key f) basic) ->
  length tb = 8%nat -> length iv = 16%nat -> (length ct mod 16 = 0)%nat ->
  fernet_decrypt f (urlsafe_b64encode (basic ++ hmac_digest SHA256 (signing_key f) basic)) =
  match pkcs7_unpad (aes_cbc_decrypt (encryption_key f) iv ct) with
  | Some unpadded => Ok unpadded
  | None => Err InvalidToken
  end.
Proof.
  intros basic Hok Htb Hiv Hct. unfold fernet_decrypt.
  rewrite urlsafe_b64_roundtrip by exact Hok. unfold rbind.
  set (tag := hmac_digest SHA256 (signing_key f) basic) in *.
  assert (Htag : length tag = 32%nat) by apply (hmac_sha256_len CB HL).
  unfold basic at 1. cbn [app]. rewrite Z.eqb_refl. cbn [negb].
  change (128 :: (tb ++ iv ++ ct) ++ tag) with (basic ++ tag).
  assert (Hlb : length basic = (25 + length ct)%nat).
  { unfold basic. rewrite !length_app. cbn [length]. lia. }
  rewrite length_app, Hlb, Htag.
  destruct (Nat.ltb_spec (25 + length ct + 32) 9); [lia|].
  replace (25 + length ct + 32 - 32)%nat with (length basic) by lia.
  rewrite firstn_app, firstn_all, Nat.sub_diag, firstn_O, app_nil_r.
  rewrite skipn_app, skipn_all, Nat.sub_diag, skipn_O, app_nil_l.
  rewrite list_Z_eqb_refl. cbn [negb].
  assert (Hiv' : firstn 16 (skipn 9 (basic ++ tag)) = iv).
  { unfold basic. cbn [app]. change (skipn 9 (128 :: (tb ++ iv ++ ct) ++ tag))
      with (skipn 8 ((tb ++ iv ++ ct) ++ tag)).
    rewrite <- !app_assoc, skipn_app, Htb, skipn_all2 by lia. cbn [app Nat.sub skipn].
    rewrite firstn_app, Hiv, Nat.sub_diag, firstn_O, app_nil_r.
    rewrite <- Hiv at 1. apply firstn_all. }
  assert (Hct' : skipn 25 basic = ct).
  { unfold basic. change (skipn 25 ([128] ++ tb ++ iv ++ ct))
      with (skipn 24 (tb ++ iv ++ ct)).
    rewrite skipn_app, Htb, skipn_all2 by lia. cbn [app].
    replace (24 - 8)%nat with (length iv) by lia. rewrite skipn_app, skipn_all,
      Nat.sub_diag, skipn_O. reflexivity. }
  rewrite Hiv', Hct', Hiv, Hct. reflexivity.
Qed.

Lemma basic_parts_iv (f : Fernet) (data : bytes) (t : Z) (iv tag : bytes) :
  length iv = 16%nat ->
  firstn 16 (skipn 9 (basic_parts f data t iv ++ tag)) = iv.
Proof.
  intros Hiv. unfold basic_parts. cbn [app].
  change (skipn 9 (128 :: (be_bytes 8 t ++ iv ++ aes_cbc_encrypt (encryption_key f) iv
    (pkcs7_pad data)) ++ tag)) with (skipn 8 ((be_bytes 8 t ++ iv ++
    aes_cbc_encrypt (encryption_key f) iv (pkcs7_pad data)) ++ tag)).
  rewrite <- !app_assoc, skipn_app, be_bytes_len, skipn_all2 by (rewrite be_bytes_len; lia).
  cbn [app Nat.sub skipn].
  rewrite firstn_app, Hiv, Nat.sub_diag, firstn_O, app_nil_r.
  rewrite <- Hiv at 1. apply firstn_all.
Qed.

Lemma fernet_token_payload_ok (f : Fernet) (data : bytes) (t : Z) (iv : bytes) :
  bytes_ok data -> bytes_ok iv ->
  bytes_ok (basic_parts f data t iv
    ++ hmac_digest SHA256 (signing_key f) (basic_parts f data t iv)).
Proof.
  intros Hd Hiv. apply Forall_app. split.
  - apply basic_parts_bytes; assumption.
  - apply (hmac_bytes CB HL).
Qed.

Lemma fernet_token_decode (f : Fernet) (data : bytes) (t : Z) (iv : bytes) :
  bytes_ok data -> bytes_ok iv ->
  urlsafe_b64decode (fernet_token f data t iv) =
  Ok (basic_parts f data t iv
    ++ hmac_digest SHA256 (signing_key f) (basic_parts f data t iv)).
Proof.
  intros Hd Hiv. apply urlsafe_b64_roundtrip, fernet_token_payload_ok; assumption.
Qed.

Lemma fernet_token_ascii (f : Fernet) (data : bytes) (t : Z) (iv : bytes) :
  bytes_ok data -> bytes_ok iv -> ascii_ok (fernet_token f data t iv).
Proof.
  intros Hd Hiv. apply urlsafe_b64encode_ascii, fernet_token_payload_ok; assumption.
Qed.

Lemma fernet_decrypt_token (f : Fernet) (data : bytes) (t : Z) (iv : bytes) :
  length (encryption_key f) = 16%nat -> length iv = 16%nat ->
  bytes_ok data -> bytes_ok iv ->
  fernet_decrypt f (fernet_token f data t iv) = Ok data.
Proof.
  intros Hk Hiv Hd Hivb.
  assert (Hct : (length (aes_cbc_encrypt (encryption_key f) iv (pkcs7_pad data)) mod 16
                 = 0)%nat).
  { rewrite (aes_encrypt_len CB HL) by apply pkcs7_pad_len. apply pkcs7_pad_len. }
  pose proof (fernet_decrypt_good_mac f (be_bytes 8 t) iv
    (aes_cbc_encrypt (encryption_key f) iv (pkcs7_pad data))) as G.
  cbv zeta in G. unfold fernet_token, basic_parts. rewrite G.
  - rewrite (aes_decrypt_encrypt CB HL) by (assumption || apply pkcs7_pad_len).
    rewrite pkcs7_unpad_pad. reflexivity.
  - apply (fernet_token_payload_ok f data t iv Hd Hivb).
  - apply be_bytes_len.
  - exact Hiv.
  - exact Hct.
Qed.

Lemma fernet_encrypt_eq (f : Fernet) (data : bytes) (w : World) :
  env_ok (env w) ->
  fernet_encrypt f data w = (Ok (fernet_token f data (now w) (next_iv w)), advance w).
Proof.
  intros [Hclock Hur].
  unfold fernet_encrypt, bind, time_time, os_urandom16, lift.
  cbv beta iota zeta delta [env self clock clock_pos urandom urandom_pos].
  rewrite encrypt_from_parts_ok; [reflexivity | apply Hur | apply Hclock].
Qed.

End FernetProofs.

(** ** Keys *)

Lemma fernet_init_key_len (key : KeyArg) (f : Fernet) :
  fernet_init key = Ok f ->
  length (signing_key f) = 16%nat /\ length (encryption_key f) = 16%nat.
Proof.
  unfold fernet_init. intros H.
  destruct (match key with KeyStr s => urlsafe_b64decode_str s
            | KeyBytes b => urlsafe_b64decode b end) as [k|[]]; try discriminate.
  destruct (Nat.eqb_spec (length k) 32) as [Hk|]; [|discriminate].
  assert (E : mkFernet (firstn 16 k) (skipn 16 k) = f) by congruence. subst f.
  cbv beta iota delta [signing_key encryption_key].
  rewrite length_firstn, length_skipn, Hk. split; reflexivity.
Qed.

Lemma a2b_loop_err (s : list Z) qp lc pads out (e : PyErr) :
  a2b_loop s qp lc pads out = Err e -> e = BinasciiError.
Proof.
  revert qp lc pads out. induction s as [|ch rest IH]; intros qp lc pads out H.
  - cbn in H. destruct qp; [discriminate|]. congruence.
  - cbn [a2b_loop] in H.
    destruct (ch =? BASE64_PAD).
    + destruct (2 <=? Z.of_nat qp); [|eapply IH; exact H].
      destruct (4 <=? Z.of_nat qp + (pads + 1)); [discriminate|eapply IH; exact H].
    + destruct (64 <=? a2b_index ch); [eapply IH; exact H|].
      destruct qp as [|[|[|qp]]]; eapply IH; exact H.
Qed.

Lemma urlsafe_b64decode_err (s : bytes) (e : PyErr) :
  urlsafe_b64decode s = Err e -> e = BinasciiError.
Proof. apply a2b_loop_err. Qed.

Lemma fernet_init_err (key : KeyArg) (e : PyErr) :
  fernet_init key = Err e -> e = ValueError.
Proof.
  unfold fernet_init. intros H.
  destruct key as [s|b].
  - unfold urlsafe_b64decode_str, bytes_from_decode_data_str in H.
    destruct (forallb _ s); cbn [rbind] in H; [|congruence].
    destruct (urlsafe_b64decode s) as [k|e'] eqn:E.
    + destruct (length k =? 32)%nat; congruence.
    + apply urlsafe_b64decode_err in E. subst e'. congruence.
  - destruct (urlsafe_b64decode b) as [k|e'] eqn:E.
    + destruct (length k =? 32)%nat; congruence.
    + apply urlsafe_b64decode_err in E. subst e'. congruence.
Qed.

Lemma fernet_init_derived `{CB : CryptoBackend} (HL : BackendLaws CB) (salt pw : bytes) :
  fernet_init (KeyBytes (urlsafe_b64encode (pbkdf2_hmac SHA256 32 salt 100000 pw)))
  = Ok (user_fernet salt pw).
Proof.
  unfold fernet_init. rewrite urlsafe_b64_roundtrip by apply (pbkdf2_bytes CB HL).
  rewrite (pbkdf2_len CB HL) by lia. reflexivity.
Qed.

(** ** Strings *)

Lemma str_encode_ascii (s : pystr) : ascii_ok s -> str_encode s = Ok s.
Proof. intros H. unfold str_encode. rewrite utf8_encode_ascii by exact H. reflexivity. Qed.

Lemma bytes_decode_ascii (s : bytes) : ascii_ok s -> bytes_decode s = Ok s.
Proof. intros H. unfold bytes_decode. rewrite utf8_decode_ascii by exact H. reflexivity. Qed.

Lemma bytes_decode_encode (s : pystr) (bs : bytes) :
  str_encode s = Ok bs -> bytes_decode bs = Ok s.
Proof.
  unfold str_encode, bytes_decode. destruct (utf8_encode s) eqn:E; [|discriminate].
  intros H; injection H as <-. rewrite (utf8_decode_encode s) by exact E. reflexivity.
Qed.

Lemma str_encode_bytes (s : pystr) (bs : bytes) : str_encode s = Ok bs -> bytes_ok bs.
Proof.
  unfold str_encode. destruct (utf8_encode s) eqn:E; [|discriminate].
  intros H; injection H as <-. eapply utf8_encode_bytes; exact E.
Qed.

Lemma utf8_encodable_ok (s : pystr) :
  utf8_encodable s = true -> exists bs, str_encode s = Ok bs.
Proof.
  unfold utf8_encodable, str_encode. destruct (utf8_encode s); [|discriminate].
  intros _. eexists; reflexivity.
Qed.

(** ** The helper's operations, step by step *)

Section ServiceProofs.
Context {CB : CryptoBackend}.
Hypothesis HL : BackendLaws CB.

Lemma encrypt_eq (P : pystr) (w : World) (f : Fernet) (data : bytes) :
  fernet_init (KeyStr (secret_key (self w))) = Ok f -> str_encode P = Ok data ->
  env_ok (env w) ->
  encrypt P w = (Ok (fernet_token f data (now w) (next_iv w)), advance w).
Proof.
  intros Hf Hd He. unfold encrypt, bind, get_self, lift.
  cbv beta iota. rewrite Hf, Hd. cbv beta iota.
  rewrite (fernet_encrypt_eq f data w He). cbv beta iota.
  rewrite bytes_decode_ascii; [reflexivity|].
  apply (fernet_token_ascii HL).
  - eapply str_encode_bytes; exact Hd.
  - apply (proj2 He).
Qed.

Lemma decrypt_eq (T : pystr) (w : World) (f : Fernet) :
  fernet_init (KeyStr (secret_key (self w))) = Ok f ->
  decrypt T w = (tok <-? str_encode T ;; pt <-? fernet_decrypt f tok ;; bytes_decode pt, w).
Proof.
  intros Hf. unfold decrypt, bind, get_self, lift.
  cbv beta iota. rewrite Hf. cbv beta iota.
  destruct (str_encode T) as [tok|]; [|reflexivity]. cbv beta iota delta [rbind].
  destruct (fernet_decrypt f tok); reflexivity.
Qed.

Lemma derive_key_eq (salt : bytes) (w : World) (pw : bytes) :
  str_encode (secret_key (self w)) = Ok pw ->
  _derive_key salt w = (Ok (urlsafe_b64encode (pbkdf2_hmac SHA256 32 salt 100000 pw)), w).
Proof.
  intros Hpw. unfold _derive_key, bind, get_self, lift, ret.
  cbv beta iota. rewrite Hpw. reflexivity.
Qed.

Lemma encrypt_for_user_eq (P S : pystr) (w : World) (sb salt pw data : bytes) :
  str_encode S = Ok sb -> urlsafe_b64decode sb = Ok salt ->
  str_encode (secret_key (self w)) = Ok pw -> str_encode P = Ok data ->
  env_ok (env w) ->
  encrypt_for_user P S w =
  (Ok (fernet_token (user_fernet salt pw) data (now w) (next_iv w)), advance w).
Proof.
  intros Hs Hsalt Hpw Hd He. unfold encrypt_for_user, bind, lift.
  cbv beta iota. rewrite Hs. cbv beta iota. rewrite Hsalt. cbv beta iota.
  rewrite (derive_key_eq salt w pw Hpw). cbv beta iota.
  rewrite (fernet_init_derived HL). cbv beta iota. rewrite Hd. cbv beta iota.
  rewrite (fernet_encrypt_eq _ data w He). cbv beta iota.
  rewrite bytes_decode_ascii; [reflexivity|].
  apply (fernet_token_ascii HL).
  - eapply str_encode_bytes; exact Hd.
  - apply (proj2 He).
Qed.

Lemma decrypt_for_user_eq (T S : pystr) (w : World) (sb salt pw : bytes) :
  str_encode S = Ok sb -> urlsafe_b64decode sb = Ok salt ->
  str_encode (secret_key (self w)) = Ok pw ->
  decrypt_for_user T S w =
  (tok <-? str_encode T ;; pt <-? fernet_decrypt (user_fernet salt pw) tok ;;
   bytes_decode pt, w).
Proof.
  intros Hs Hsalt Hpw. unfold decrypt_for_user, bind, lift.
  cbv beta iota. rewrite Hs. cbv beta iota. rewrite Hsalt. cbv beta iota.
  rewrite (derive_key_eq salt w pw Hpw). cbv beta iota.
  rewrite (fernet_init_derived HL). cbv beta iota.
  destruct (str_encode T) as [tok|]; [|reflexivity]. cbv beta iota delta [rbind].
  destruct (fernet_decrypt (user_fernet salt pw) tok); reflexivity.
Qed.

End ServiceProofs.

(** ** Frame *)

Lemma preserves_bind {A B} (m : M A) (k : A -> M B) :
  preserves_self m -> (forall a, preserves_self (k a)) -> preserves_self (bind m k).
Proof.
  intros Hm Hk w. unfold bind. specialize (Hm w).
  destruct (m w) as [[a|e] w'] eqn:E; cbn [snd] in *; [rewrite Hk|]; exact Hm.
Qed.

Lemma preserves_ret {A} (a : A) : preserves_self (ret a).
Proof. intros w. reflexivity. Qed.

Lemma preserves_lift {A} (r : result A) : preserves_self (lift r).
Proof. intros w. reflexivity. Qed.

Lemma preserves_get_self : preserves_self get_self.
Proof. intros w. reflexivity. Qed.

Lemma preserves_time_time : preserves_self time_time.
Proof. intros w. reflexivity. Qed.

Lemma preserves_os_urandom16 : preserves_self os_urandom16.
Proof. intros w. reflexivity. Qed.

Create HintDb frame.
#[export] Hint Resolve preserves_bind preserves_ret preserves_lift preserves_get_self
  preserves_time_time preserves_os_urandom16 : frame.

Lemma preserves_fernet_encrypt `{CryptoBackend} (f : Fernet) (data : bytes) :
  preserves_self (fernet_encrypt f data).
Proof. unfold fernet_encrypt. auto with frame. Qed.

Lemma preserves_derive_key `{CryptoBackend} (salt : bytes) :
  preserves_self (_derive_key salt).
Proof. unfold _derive_key. auto with frame. Qed.

#[export] Hint Resolve preserves_fernet_encrypt preserves_derive_key : frame.


(** ** Round trips through the helper *)

Section RoundTrips.
Context {CB : CryptoBackend}.
Hypothesis HL : BackendLaws CB.

Lemma iv_ok (w : World) :
  env_ok (env w) -> length (next_iv w) = 16%nat /\ bytes_ok (next_iv w).
Proof. intros [_ Hu]. apply Hu. Qed.

(** [decrypt] returns the plaintext of a token made under the helper's key. *)
Lemma decrypt_fernet_token (P : pystr) (w : World) (f : Fernet) (data : bytes)
    (t : Z) (iv : bytes) :
  fernet_init (KeyStr (secret_key (self w))) = Ok f -> str_encode P = Ok data ->
  length iv = 16%nat -> bytes_ok iv ->
  decrypt (fernet_token f data t iv) w = (Ok P, w).
Proof.
  intros Hf Hd Hiv Hivb. rewrite (decrypt_eq _ w f Hf).
  assert (Hdb := str_encode_bytes _ _ Hd).
  rewrite str_encode_ascii by (apply (fernet_token_ascii HL); assumption).
  cbv beta iota delta [rbind].
  rewrite (fernet_decrypt_token HL) by (try apply (fernet_init_key_len _ _ Hf); assumption).
  apply (f_equal (fun r => (r, w))). apply bytes_decode_encode. exact Hd.
Qed.

(** [decrypt_for_user] returns the plaintext of a token made under the
    key derived from the same salt bytes. *)
Lemma decrypt_for_user_fernet_token (P S : pystr) (w : World) (sb salt pw data : bytes)
    (t : Z) (iv : bytes) :
  str_encode S = Ok sb -> urlsafe_b64decode sb = Ok salt ->
  str_encode (secret_key (self w)) = Ok pw -> str_encode P = Ok data ->
  length iv = 16%nat -> bytes_ok iv ->
  decrypt_for_user (fernet_token (user_fernet salt pw) data t iv) S w = (Ok P, w).
Proof.
  intros Hs Hsalt Hpw Hd Hiv Hivb. rewrite (decrypt_for_user_eq HL _ S w sb salt pw)
    by assumption.
  assert (Hdb := str_encode_bytes _ _ Hd).
  rewrite str_encode_ascii by (apply (fernet_token_ascii HL); assumption).
  cbv beta iota delta [rbind].
  rewrite (fernet_decrypt_token HL); try assumption.
  - apply (f_equal (fun r => (r, w))). apply bytes_decode_encode. exact Hd.
  - apply (fernet_init_key_len (KeyBytes (urlsafe_b64encode
      (pbkdf2_hmac SHA256 32 salt 100000 pw)))).
    apply (fernet_init_derived HL).
Qed.

End RoundTrips.

(** ** The example backend satisfies the laws *)

Lemma toy_laws : BackendLaws ToyBackend.
Proof.
  split; cbv beta iota delta [ToyBackend aes_cbc_encrypt aes_cbc_decrypt hmac_digest
    pbkdf2_hmac].
  - reflexivity.
  - trivial.
  - reflexivity.
  - intros. apply repeat_length.
  - intros _ k m. apply Forall_forall. intros x Hx.
    apply repeat_spec in Hx. subst x. apply Z.mod_pos_bound. lia.
  - intros. rewrite length_map, length_seq. reflexivity.
  - intros. apply Forall_forall. intros x Hx. apply in_map_iff in Hx.
    destruct Hx as [i [<- _]]. apply Z.mod_pos_bound. lia.
Qed.

Lemma toy_env_ok : env_ok toy_env.
Proof.
  split; cbv beta iota delta [toy_env clock urandom].
  - intros _. split; [lia|]. vm_compute. reflexivity.
  - intros n. split; [apply repeat_length|].
    apply Forall_forall. intros x Hx. apply repeat_spec in Hx. subst x.
    apply Z.mod_pos_bound. lia.
Qed.

(** * The claims *)

(** ** C1 *)

(** C1 (amended).  [decrypt(encrypt(P)) == P] holds when [P] has no lone
    surrogate (so that [P.encode()] succeeds) and the secret is one that
    [Fernet(secret)] accepts, i.e. the URL-safe base64 of 32 bytes: then
    [encrypt] returns a token and [decrypt] on any world with the same helper
    returns [P].  A non-empty secret is not enough: [encrypt] raises
    [ValueError] for any other secret. *)
Theorem encrypt_decrypt_roundtrip `{CB : CryptoBackend} (HL : BackendLaws CB)
    (P : pystr) (w : World) :
  is_fernet_key (secret_key (self w)) = true -> utf8_encodable P = true ->
  env_ok (env w) ->
  exists token, encrypt P w = (Ok token, advance w) /\
    forall w', self w' = self w -> decrypt token w' = (Ok P, w').
Proof.
  intros Hk HP He. unfold is_fernet_key in Hk.
  destruct (fernet_init (KeyStr (secret_key (self w)))) as [f|] eqn:Hf; [|discriminate].
  destruct (utf8_encodable_ok P HP) as [data Hd].
  exists (fernet_token f data (now w) (next_iv w)). split.
  - apply (encrypt_eq HL); assumption.
  - intros w' Hw'. destruct (iv_ok w He) as [Hiv Hivb].
    apply (decrypt_fernet_token HL P w' f data); try assumption.
    rewrite Hw'. exact Hf.
Qed.

Lemma encrypt_decrypt_roundtrip_witness :
  exists token, encrypt str_super_secret toy_world = (Ok token, advance toy_world) /\
    forall w', self w' = self toy_world ->
      decrypt token w' = (Ok str_super_secret, w').
Proof.
  apply (encrypt_decrypt_roundtrip toy_laws str_super_secret toy_world).
  - vm_compute. reflexivity.
  - vm_compute. reflexivity.
  - exact toy_env_ok.
Defined.

(** C1, counterexample: with the spec's own example secret ["k1"],
    [encrypt("super-secret")] raises [ValueError]; with a valid key,
    [encrypt("\ud800")] raises [UnicodeEncodeError]. *)
Lemma encrypt_decrypt_roundtrip_counterexample :
  fst (encrypt str_super_secret (mkWorld (mkHelper str_k1) toy_env)) = Err ValueError /\
  fst (encrypt [0xD800] toy_world) = Err UnicodeEncodeError.
Proof. split; vm_compute; reflexivity. Qed.

(** ** C2 *)

(** C2 (amended).  [decrypt_for_user(encrypt_for_user(P, S), S) == P]
    when [S.encode()] is decoded by [urlsafe_b64decode] without error, [P]
    and the secret have no lone surrogate, and the clock and [os.urandom]
    behave; the secret need not itself be a Fernet key here. *)
Theorem encrypt_for_user_roundtrip `{CB : CryptoBackend} (HL : BackendLaws CB)
    (P S : pystr) (w : World) (sb salt : bytes) :
  str_encode S = Ok sb -> urlsafe_b64decode sb = Ok salt ->
  utf8_encodable (secret_key (self w)) = true -> utf8_encodable P = true ->
  env_ok (env w) ->
  exists token, encrypt_for_user P S w = (Ok token, advance w) /\
    forall w', self w' = self w -> decrypt_for_user token S w' = (Ok P, w').
Proof.
  intros Hs Hsalt Hk HP He.
  destruct (utf8_encodable_ok _ Hk) as [pw Hpw].
  destruct (utf8_encodable_ok P HP) as [data Hd].
  exists (fernet_token (user_fernet salt pw) data (now w) (next_iv w)). split.
  - apply (encrypt_for_user_eq HL P S w sb); assumption.
  - intros w' Hw'. destruct (iv_ok w He) as [Hiv Hivb].
    apply (decrypt_for_user_fernet_token HL P S w' sb); try assumption.
    rewrite Hw'. exact Hpw.
Qed.

Lemma encrypt_for_user_roundtrip_witness :
  exists token, encrypt_for_user str_super_secret str_AAAA toy_world
                = (Ok token, advance toy_world) /\
    forall w', self w' = self toy_world ->
      decrypt_for_user token str_AAAA w' = (Ok str_super_secret, w').
Proof.
  apply (encrypt_for_user_roundtrip toy_laws str_super_secret str_AAAA toy_world
           str_AAAA [0; 0; 0]).
  - vm_compute. reflexivity.
  - vm_compute. reflexivity.
  - vm_compute. reflexivity.
  - vm_compute. reflexivity.
  - exact toy_env_ok.
Defined.

(** C2, counterexample: for the plaintext ["\ud800"] and the valid salt
    ["AAAA"], [encrypt_for_user] raises [UnicodeEncodeError]. *)
Lemma encrypt_for_user_roundtrip_counterexample :
  fst (encrypt_for_user [0xD800] str_AAAA toy_world) = Err UnicodeEncodeError.
Proof. vm_compute. reflexivity. Qed.

(** ** C3 *)

(** C3.  When the salt step [urlsafe_b64decode(salt_b64.encode())]
    fails, both [encrypt_for_user] and [decrypt_for_user] fail with that same
    error, which is [binascii.Error] (or [UnicodeEncodeError] for a salt
    with a lone surrogate); no [InvalidSaltError] exists.  They fail before
    any key is derived and before the clock or [os.urandom] is read: the
    world is returned unchanged.  The decoder is the lax one, so this covers
    only the salts it rejects; see the counterexample for one it does not. *)
Theorem invalid_salt_rejected `{CB : CryptoBackend} (P T S : pystr) (w : World)
    (e : PyErr) :
  (sb <-? str_encode S ;; urlsafe_b64decode sb) = Err e ->
  (e = BinasciiError \/ e = UnicodeEncodeError) /\
  encrypt_for_user P S w = (Err e, w) /\ decrypt_for_user T S w = (Err e, w).
Proof.
  intros H. unfold encrypt_for_user, decrypt_for_user, bind, lift.
  cbv beta iota.
  destruct (str_encode S) as [sb|e'] eqn:Hs; cbv beta iota delta [rbind] in H.
  - destruct (urlsafe_b64decode sb) as [salt|e'] eqn:Hd; [discriminate|].
    assert (e' = e) as -> by congruence.
    apply urlsafe_b64decode_err in Hd. subst e.
    split; [left; reflexivity|split; reflexivity].
  - assert (e' = e) as -> by congruence.
    unfold str_encode in Hs. destruct (utf8_encode S); [discriminate|].
    assert (e = UnicodeEncodeError) as -> by congruence.
    split; [right; reflexivity|split; reflexivity].
Qed.

Lemma invalid_salt_rejected_witness :
  (BinasciiError = BinasciiError \/ BinasciiError = UnicodeEncodeError) /\
  encrypt_for_user str_super_secret str_AAA toy_world = (Err BinasciiError, toy_world) /\
  decrypt_for_user str_super_secret str_AAA toy_world = (Err BinasciiError, toy_world).
Proof.
  apply (invalid_salt_rejected str_super_secret str_super_secret str_AAA toy_world
           BinasciiError).
  vm_compute. reflexivity.
Defined.

(** C3, counterexample: ["not-a-base64!!"] is not valid base64 (the
    malformed salt of [test_user_specific_decrypt_with_malformed_salt_raises]),
    yet the lax decoder turns it into nine salt bytes and [encrypt_for_user]
    and [decrypt_for_user] run to completion with it instead of failing. *)
Lemma invalid_salt_rejected_counterexample :
  (sb <-? str_encode str_not_b64 ;; urlsafe_b64decode sb)
    = Ok [158; 139; 126; 107; 230; 218; 177; 238; 184] /\
  match fst (encrypt_for_user str_super_secret str_not_b64 toy_world) with
  | Ok token => fst (decrypt_for_user token str_not_b64 toy_world) = Ok str_super_secret
  | Err _ => False
  end.
Proof. split; vm_compute; reflexivity. Qed.

(** ** C4 *)

(** C4.  [FernetEncryptionHelper(secret_key=None)] and
    [FernetEncryptionHelper(secret_key="")] raise (the code's name for the
    error is [MissingEncryptionKeyError]) in the constructor itself; any
    non-empty secret is stored as given. *)
Theorem init_rejects_missing_key :
  __init__ None = Err MissingEncryptionKeyError /\
  __init__ (Some []) = Err MissingEncryptionKeyError /\
  forall s, s <> [] -> __init__ (Some s) = Ok (mkHelper s).
Proof.
  split; [reflexivity|split; [reflexivity|]].
  intros [|c s] H; [contradiction|reflexivity].
Qed.

(** ** C5 *)

(** C5 (amended).  Salts are compared after decoding, not as strings: two
    salt strings that decode to the same bytes derive the same key, so a
    token made with one is decrypted with the other.  For salts whose
    derived signing keys give a different HMAC over the token's payload,
    [decrypt_for_user] raises [InvalidToken]. *)
Theorem salt_sensitivity `{CB : CryptoBackend} (HL : BackendLaws CB)
    (P S1 S2 : pystr) (w : World) (sb1 sb2 salt1 salt2 pw data : bytes) :
  str_encode S1 = Ok sb1 -> urlsafe_b64decode sb1 = Ok salt1 ->
  str_encode S2 = Ok sb2 -> urlsafe_b64decode sb2 = Ok salt2 ->
  str_encode (secret_key (self w)) = Ok pw -> str_encode P = Ok data ->
  env_ok (env w) ->
  let basic := basic_parts (user_fernet salt1 pw) data (now w) (next_iv w) in
  exists token, encrypt_for_user P S1 w = (Ok token, advance w) /\
    forall w', self w' = self w ->
      (salt1 = salt2 -> decrypt_for_user token S2 w' = (Ok P, w')) /\
      (hmac_digest SHA256 (signing_key (user_fernet salt2 pw)) basic
         <> hmac_digest SHA256 (signing_key (user_fernet salt1 pw)) basic ->
       decrypt_for_user token S2 w' = (Err InvalidToken, w')).
Proof.
  intros Hs1 Hd1 Hs2 Hd2 Hpw Hd He basic.
  exists (fernet_token (user_fernet salt1 pw) data (now w) (next_iv w)). split.
  - apply (encrypt_for_user_eq HL P S1 w sb1); assumption.
  - intros w' Hw'. rewrite <- Hw' in Hpw. destruct (iv_ok w He) as [Hiv Hivb].
    split.
    + intros <-. apply (decrypt_for_user_fernet_token HL P S2 w' sb2); assumption.
    + intros Hne. rewrite (decrypt_for_user_eq HL _ S2 w' sb2 salt2 pw) by assumption.
      assert (Hdb := str_encode_bytes _ _ Hd).
      rewrite str_encode_ascii by (apply (fernet_token_ascii HL); assumption).
      cbv beta iota delta [rbind]. unfold fernet_token.
      rewrite fernet_decrypt_bad_mac; [reflexivity| | | |].
      * apply (fernet_token_payload_ok HL); assumption.
      * reflexivity.
      * apply (hmac_sha256_len CB HL).
      * destruct (list_Z_eqb _ _) eqn:E; [|reflexivity].
        apply list_Z_eqb_spec in E. contradiction.
Qed.

Lemma salt_sensitivity_witness :
  let w := toy_world in
  let pw := toy_key in
  let data := str_super_secret in
  let basic := basic_parts (user_fernet [0; 0; 0] pw) data (now w) (next_iv w) in
  exists token, encrypt_for_user str_super_secret str_AAAA w = (Ok token, advance w) /\
    forall w', self w' = self w ->
      ([0; 0; 0] = [0; 0; 1] ->
       decrypt_for_user token str_AAAB w' = (Ok str_super_secret, w')) /\
      (hmac_digest SHA256 (signing_key (user_fernet [0; 0; 1] pw)) basic
         <> hmac_digest SHA256 (signing_key (user_fernet [0; 0; 0] pw)) basic ->
       decrypt_for_user token str_AAAB w' = (Err InvalidToken, w')).
Proof.
  apply (salt_sensitivity toy_laws str_super_secret str_AAAA str_AAAB toy_world
           str_AAAA str_AAAB [0; 0; 0] [0; 0; 1] toy_key str_super_secret).
  - vm_compute. reflexivity.
  - vm_compute. reflexivity.
  - vm_compute. reflexivity.
  - vm_compute. reflexivity.
  - vm_compute. reflexivity.
  - vm_compute. reflexivity.
  - exact toy_env_ok.
Defined.

(** C5, counterexample: ["AA=="] and ["AB=="] are distinct valid salts
    that both decode to the single byte 0, and a token made with the first
    is decrypted with the second. *)
Lemma salt_sensitivity_counterexample :
  str_AA <> str_AB /\
  match fst (encrypt_for_user str_super_secret str_AA toy_world) with
  | Ok token => fst (decrypt_for_user token str_AB toy_world) = Ok str_super_secret
  | Err _ => False
  end.
Proof. split; [discriminate | vm_compute; reflexivity]. Qed.

(** ** C6 *)

(** C6.  [_derive_key(salt)] is PBKDF2-HMAC-SHA256 with password the UTF-8
    encoding of the stored secret, the given salt, 100000 iterations and a
    32-byte output, URL-safe base64 encoded; [Fernet] decodes the encoding
    back to those 32 bytes and splits them into its two 16-byte halves.
    The call reads nothing but the secret and the salt and changes no
    state, so helpers with the same secret derive the same key. *)
Theorem derive_key_pbkdf2 `{CB : CryptoBackend} (HL : BackendLaws CB)
    (salt : bytes) (w : World) (pw : bytes) :
  str_encode (secret_key (self w)) = Ok pw ->
  let raw := pbkdf2_hmac SHA256 32 salt 100000 pw in
  _derive_key salt w = (Ok (urlsafe_b64encode raw), w) /\
  length raw = 32%nat /\
  urlsafe_b64decode (urlsafe_b64encode raw) = Ok raw /\
  fernet_init (KeyBytes (urlsafe_b64encode raw)) = Ok (mkFernet (firstn 16 raw) (skipn 16 raw)) /\
  (forall w', secret_key (self w') = secret_key (self w) ->
     _derive_key salt w' = (Ok (urlsafe_b64encode raw), w')).
Proof.
  intros Hpw raw. split; [|split; [|split; [|split]]].
  - apply derive_key_eq. exact Hpw.
  - apply (pbkdf2_len CB HL). lia.
  - apply urlsafe_b64_roundtrip, (pbkdf2_bytes CB HL).
  - apply (fernet_init_derived HL).
  - intros w' Hw'. apply derive_key_eq. rewrite Hw'. exact Hpw.
Qed.

Lemma derive_key_pbkdf2_witness :
  let raw := pbkdf2_hmac SHA256 32 [0; 0; 0] 100000 toy_key in
  _derive_key [0; 0; 0] toy_world = (Ok (urlsafe_b64encode raw), toy_world) /\
  length raw = 32%nat /\
  urlsafe_b64decode (urlsafe_b64encode raw) = Ok raw /\
  fernet_init (KeyBytes (urlsafe_b64encode raw)) = Ok (mkFernet (firstn 16 raw) (skipn 16 raw)) /\
  (forall w', secret_key (self w') = secret_key (self toy_world) ->
     _derive_key [0; 0; 0] w' = (Ok (urlsafe_b64encode raw), w')).
Proof.
  apply (derive_key_pbkdf2 toy_laws [0; 0; 0] toy_world toy_key).
  vm_compute. reflexivity.
Defined.

(** ** C7 *)

(** C7 (amended).  For [P] without lone surrogates and a secret [Fernet]
    accepts, two successive [encrypt(P)] calls both succeed and both tokens
    decrypt to [P], whatever IVs they draw; the tokens differ whenever the
    two [os.urandom(16)] IVs differ (equal IVs and an equal second of
    [time.time()] give equal tokens; distinct tokens are not guaranteed by
    the code itself). *)
Theorem encrypt_twice_distinct `{CB : CryptoBackend} (HL : BackendLaws CB)
    (P : pystr) (w : World) :
  is_fernet_key (secret_key (self w)) = true -> utf8_encodable P = true ->
  env_ok (env w) ->
  exists t1 t2,
    encrypt P w = (Ok t1, advance w) /\
    encrypt P (advance w) = (Ok t2, advance (advance w)) /\
    (next_iv w <> next_iv (advance w) -> t1 <> t2) /\
    forall w', self w' = self w -> decrypt t1 w' = (Ok P, w') /\ decrypt t2 w' = (Ok P, w').
Proof.
  intros Hk HP He. unfold is_fernet_key in Hk.
  destruct (fernet_init (KeyStr (secret_key (self w)))) as [f|] eqn:Hf; [|discriminate].
  destruct (utf8_encodable_ok P HP) as [data Hd].
  assert (Hdb := str_encode_bytes _ _ Hd).
  assert (He' : env_ok (env (advance w))) by exact He.
  destruct (iv_ok w He) as [Hiv1 Hivb1]. destruct (iv_ok _ He') as [Hiv2 Hivb2].
  exists (fernet_token f data (now w) (next_iv w)),
         (fernet_token f data (now (advance w)) (next_iv (advance w))).
  split; [|split; [|split]].
  - apply (encrypt_eq HL); assumption.
  - apply (encrypt_eq HL); assumption.
  - intros Hne Heq. apply Hne.
    apply (f_equal urlsafe_b64decode) in Heq.
    rewrite !(fernet_token_decode HL) in Heq by assumption.
    apply (f_equal (fun r : result bytes => match r with Ok x => x | Err _ => [] end))
      in Heq.
    cbv beta iota in Heq.
    rewrite <- (basic_parts_iv f data (now w) (next_iv w)
                  (hmac_digest SHA256 (signing_key f) (basic_parts f data (now w) (next_iv w))))
      by exact Hiv1.
    rewrite Heq. apply basic_parts_iv. exact Hiv2.
  - intros w' Hw'. rewrite <- Hw' in Hf. split.
    + apply (decrypt_fernet_token HL P w' f data); assumption.
    + apply (decrypt_fernet_token HL P w' f data); assumption.
Qed.

Lemma encrypt_twice_distinct_witness :
  exists t1 t2,
    encrypt str_super_secret toy_world = (Ok t1, advance toy_world) /\
    encrypt str_super_secret (advance toy_world) = (Ok t2, advance (advance toy_world)) /\
    t1 <> t2 /\
    forall w', self w' = self toy_world ->
      decrypt t1 w' = (Ok str_super_secret, w') /\ decrypt t2 w' = (Ok str_super_secret, w').
Proof.
  destruct (encrypt_twice_distinct toy_laws str_super_secret toy_world)
    as (t1 & t2 & E1 & E2 & Hne & Hdec).
  - vm_compute. reflexivity.
  - vm_compute. reflexivity.
  - exact toy_env_ok.
  - exists t1, t2. split; [exact E1|]. split; [exact E2|]. split; [|exact Hdec].
    apply Hne. vm_compute. discriminate.
Defined.

(** C7, counterexample: for ["\ud800"] neither call returns a token; both
    raise [UnicodeEncodeError]. *)
Lemma encrypt_twice_distinct_counterexample :
  fst (encrypt [0xD800] toy_world) = Err UnicodeEncodeError /\
  fst (encrypt [0xD800] (advance toy_world)) = Err UnicodeEncodeError.
Proof. split; vm_compute; reflexivity. Qed.

(** ** C8 *)

(** C8 (amended).  [decrypt] rejects, with [InvalidToken], every token
    string whose base64-decoded bytes [basic ++ tag] (however the string
    spells them) start with the version byte,
    end in 32 bytes, and whose [tag] is not the HMAC-SHA256 of [basic] under
    the helper's signing key; in particular any change to the 32-byte MAC
    field of a token [encrypt] made.  Acceptance depends on the decoded
    bytes only: an edit of the token string that leaves them unchanged is
    accepted. *)
Theorem decrypt_rejects_bad_mac `{CB : CryptoBackend} (HL : BackendLaws CB)
    (w : World) (f : Fernet) (T : pystr) (tb basic tag : bytes) :
  fernet_init (KeyStr (secret_key (self w))) = Ok f ->
  str_encode T = Ok tb -> urlsafe_b64decode tb = Ok (basic ++ tag) ->
  hd 0 basic = 128 -> length tag = 32%nat ->
  hmac_digest SHA256 (signing_key f) basic <> tag ->
  decrypt T w = (Err InvalidToken, w).
Proof.
  intros Hf Ht Hd Hhd Htag Hne. rewrite (decrypt_eq _ w f Hf), Ht.
  cbv beta iota delta [rbind].
  rewrite (fernet_decrypt_bad_mac_decoded f tb basic tag); try assumption; [reflexivity|].
  destruct (list_Z_eqb _ _) eqn:E; [|reflexivity].
  apply list_Z_eqb_spec in E. contradiction.
Qed.

Lemma decrypt_rejects_bad_mac_witness :
  decrypt (33 :: urlsafe_b64encode ((128 :: repeat 0 40) ++ repeat 0 32)) toy_world
  = (Err InvalidToken, toy_world).
Proof.
  apply (decrypt_rejects_bad_mac toy_laws toy_world
           (mkFernet (map Z.of_nat (seq 0 16)) (map Z.of_nat (seq 16 16)))
           (33 :: urlsafe_b64encode ((128 :: repeat 0 40) ++ repeat 0 32))
           (33 :: urlsafe_b64encode ((128 :: repeat 0 40) ++ repeat 0 32))
           (128 :: repeat 0 40) (repeat 0 32)).
  - vm_compute. reflexivity.
  - vm_compute. reflexivity.
  - vm_compute. reflexivity.
  - reflexivity.
  - reflexivity.
  - vm_compute. discriminate.
Defined.

(** C8, counterexample: in the token [encrypt("")] returns, the character
    before the final ["=="] carries four unused bits; replacing it by the
    next letter of the alphabet sets the lowest of them, and [decrypt]
    accepts the changed string. *)
Lemma decrypt_rejects_bad_mac_counterexample :
  match fst (encrypt [] toy_world) with
  | Ok token =>
      let n := (length token - 3)%nat in
      bump_at n token <> token /\ fst (decrypt (bump_at n token) toy_world) = Ok []
  | Err _ => False
  end.
Proof. vm_compute. split; [discriminate | reflexivity]. Qed.

(** ** C9 *)

(** C9.  The constructor accepts every non-empty secret; when the secret
    is not a key [Fernet] accepts, every [encrypt] and [decrypt] call raises
    [ValueError] and leaves the world as it was. *)
Theorem non_key_secret_fails_on_use `{CB : CryptoBackend} (s : pystr) :
  s <> [] -> is_fernet_key s = false ->
  __init__ (Some s) = Ok (mkHelper s) /\
  forall w, self w = mkHelper s ->
    forall P T, encrypt P w = (Err ValueError, w) /\ decrypt T w = (Err ValueError, w).
Proof.
  intros Hne Hk. split.
  - destruct s; [contradiction|reflexivity].
  - intros w Hw P T. unfold is_fernet_key in Hk.
    destruct (fernet_init (KeyStr s)) as [f|e] eqn:Hf; [discriminate|].
    apply fernet_init_err in Hf as He. subst e.
    unfold encrypt, decrypt, bind, get_self, lift. cbv beta iota.
    rewrite Hw. cbv beta iota delta [secret_key]. rewrite Hf.
    split; reflexivity.
Qed.

Lemma non_key_secret_fails_on_use_witness :
  __init__ (Some str_k1) = Ok (mkHelper str_k1) /\
  forall w, self w = mkHelper str_k1 ->
    forall P T, encrypt P w = (Err ValueError, w) /\ decrypt T w = (Err ValueError, w).
Proof.
  apply (non_key_secret_fails_on_use str_k1).
  - discriminate.
  - vm_compute. reflexivity.
Defined.

(** ** C10 *)

(** C10.  None of [encrypt], [decrypt], [encrypt_for_user],
    [decrypt_for_user] and [_derive_key] changes the helper object, whether
    it returns or raises; the helper's only field is [secret_key]. *)
Theorem operations_preserve_helper `{CB : CryptoBackend} :
  (forall P, preserves_self (encrypt P)) /\
  (forall T, preserves_self (decrypt T)) /\
  (forall P S, preserves_self (encrypt_for_user P S)) /\
  (forall T S, preserves_self (decrypt_for_user T S)) /\
  (forall salt, preserves_self (_derive_key salt)).
Proof.
  repeat split; intros;
    unfold encrypt, decrypt, encrypt_for_user, decrypt_for_user; auto 20 with frame.
Qed.

(** * Library code behind the service: helper lemmas *)

(** ** Base64: lengths, alphabet, leniency *)

Lemma b2a_base64_len (bs : bytes) :
  length (b2a_base64 bs) = (4 * ((length bs + 2) / 3))%nat.
Proof.
  remember (length bs) as n eqn:Hn.
  revert bs Hn. induction n as [n IH] using lt_wf_ind. intros bs Hn.
  destruct bs as [|b0 [|b1 [|b2 rest]]]; subst n; try reflexivity.
  cbn [b2a_base64 length]. rewrite (IH (length rest)) by (cbn; lia || reflexivity).
  replace (S (S (S (length rest))) + 2)%nat with ((length rest + 2) + 1 * 3)%nat by lia.
  rewrite Nat.div_add by lia. lia.
Qed.

Lemma b64_char_urlsafe (i : Z) : 0 <= i < 64 ->
  urlsafe_alphabet (urlsafe_encode_tr (b64_char i)).
Proof.
  intros Hi. unfold urlsafe_alphabet, urlsafe_encode_tr, b64_char.
  destruct (Z.ltb_spec i 26); [|destruct (Z.ltb_spec i 52);
    [|destruct (Z.ltb_spec i 62); [|destruct (Z.eqb_spec i 62)]]]; zcase.
Qed.

Lemma urlsafe_b64encode_alphabet (bs : bytes) : bytes_ok bs ->
  Forall (fun c => urlsafe_alphabet c \/ c = BASE64_PAD) (urlsafe_b64encode bs).
Proof.
  unfold urlsafe_b64encode.
  remember (length bs) as n eqn:Hn.
  revert bs Hn. induction n as [n IH] using lt_wf_ind.
  intros bs Hn Hok.
  destruct bs as [|b0 [|b1 [|b2 rest]]].
  - constructor.
  - inversion Hok as [|? ? Hb0 _]; subst.
    cbn [b2a_base64 map]. rewrite enc_field1_last, shiftr_div by lia.
    repeat (apply Forall_cons;
      [first [left; apply b64_char_urlsafe; zarith | right; reflexivity] |]).
    constructor.
  - inversion Hok as [|? ? Hb0 Hok1]; inversion Hok1 as [|? ? Hb1 _]; subst.
    cbn [b2a_base64 map]. rewrite enc_field2_last, enc_field1, shiftr_div by lia.
    repeat (apply Forall_cons;
      [first [left; apply b64_char_urlsafe; zarith | right; reflexivity] |]).
    constructor.
  - inversion Hok as [|? ? Hb0 Hok1]; inversion Hok1 as [|? ? Hb1 Hok2];
      inversion Hok2 as [|? ? Hb2 Hok3]; subst.
    cbn [b2a_base64 map]. rewrite enc_field2, enc_field1, land63, shiftr_div by lia.
    repeat (apply Forall_cons; [left; apply b64_char_urlsafe; zarith|]).
    apply (IH (length rest)); [cbn; lia|reflexivity|assumption].
Qed.

(** A complete padding sequence ends the parse: what follows it is not read. *)
Lemma a2b_loop_b2a_padded (bs out sfx : bytes) : bytes_ok bs ->
  (length bs mod 3 <> 0)%nat ->
  a2b_loop (map urlsafe_decode_tr (map urlsafe_encode_tr (b2a_base64 bs)) ++ sfx)
    0 0 0 out = Ok (out ++ bs).
Proof.
  remember (length bs) as n eqn:Hn.
  revert bs out Hn. induction n as [n IH] using lt_wf_ind.
  intros bs out Hn Hok Hmod.
  destruct bs as [|b0 [|b1 [|b2 rest]]].
  - subst n. cbn in Hmod. lia.
  - inversion Hok as [|? ? Hb0 _]; subst.
    cbn [b2a_base64 map]. rewrite enc_field1_last, shiftr_div by lia.
    rewrite !urlsafe_rt_digit by zarith. rewrite urlsafe_rt_pad.
    rewrite <- !app_comm_cons.
    b64_step. b64_step. rewrite a2b_loop_pad2.
    rewrite dec_field1 by zarith. repeat f_equal; zarith.
  - inversion Hok as [|? ? Hb0 Hok1]; inversion Hok1 as [|? ? Hb1 _]; subst.
    cbn [b2a_base64 map]. rewrite enc_field2_last, enc_field1, shiftr_div by lia.
    rewrite !urlsafe_rt_digit by zarith. rewrite urlsafe_rt_pad.
    rewrite <- !app_comm_cons.
    b64_step. b64_step. b64_step. rewrite a2b_loop_pad3.
    rewrite dec_field1, dec_field2, land15 by zarith.
    rewrite <- app_assoc. cbn [app]. repeat f_equal; zarith.
  - inversion Hok as [|? ? Hb0 Hok1]; inversion Hok1 as [|? ? Hb1 Hok2];
      inversion Hok2 as [|? ? Hb2 Hok3]; subst.
    cbn [b2a_base64 map]. rewrite enc_field2, enc_field1, land63, shiftr_div by lia.
    rewrite !urlsafe_rt_digit by zarith.
    rewrite <- !app_comm_cons.
    b64_step. b64_step. b64_step. b64_step.
    assert (Hm : (length rest mod 3 <> 0)%nat).
    { cbn [length] in Hmod.
      replace (S (S (S (length rest)))) with (length rest + 1 * 3)%nat in Hmod by lia.
      rewrite Nat.Div0.mod_add in Hmod. exact Hmod. }
    rewrite (IH (length rest)) by (cbn [length]; lia || reflexivity || assumption).
    rewrite dec_field1, dec_field2, dec_field3, land15, land3 by zarith.
    rewrite <- !app_assoc. cbn [app]. repeat f_equal; zarith.
Qed.

(** A character outside the alphabet, other than the pad, is skipped in
    whatever state the parse is. *)
Lemma a2b_loop_skip (l1 l2 : list Z) (c : Z) qp lc pads out :
  a2b_index c = 255 -> c <> BASE64_PAD ->
  a2b_loop (l1 ++ c :: l2) qp lc pads out = a2b_loop (l1 ++ l2) qp lc pads out.
Proof.
  intros Hc Hp. revert qp lc pads out.
  induction l1 as [|x l1 IH]; intros qp lc pads out.
  - cbn [app a2b_loop]. rewrite Hc.
    destruct (Z.eqb_spec c BASE64_PAD); [contradiction|]. reflexivity.
  - rewrite <- !app_comm_cons. cbn [a2b_loop].
    destruct (x =? BASE64_PAD).
    + destruct (2 <=? Z.of_nat qp); [|apply IH].
      destruct (4 <=? Z.of_nat qp + (pads + 1)); [reflexivity|apply IH].
    + destruct (64 <=? a2b_index x); [apply IH|].
      destruct qp as [|[|[|qp]]]; apply IH.
Qed.

Lemma urlsafe_decode_tr_idem (c : Z) :
  urlsafe_decode_tr (urlsafe_decode_tr c) = urlsafe_decode_tr c.
Proof. unfold urlsafe_decode_tr. zcase. Qed.

Lemma urlsafe_decode_tr_pad (c : Z) :
  c <> BASE64_PAD -> urlsafe_decode_tr c <> BASE64_PAD.
Proof. unfold urlsafe_decode_tr, BASE64_PAD. intros H. zcase. Qed.

Lemma urlsafe_b64decode_skip (s1 s2 : bytes) (c : Z) :
  a2b_index (urlsafe_decode_tr c) = 255 -> c <> BASE64_PAD ->
  urlsafe_b64decode (s1 ++ c :: s2) = urlsafe_b64decode (s1 ++ s2).
Proof.
  intros Hc Hp. unfold urlsafe_b64decode, a2b_base64.
  rewrite !map_app. cbn [map]. apply a2b_loop_skip; [exact Hc|].
  apply urlsafe_decode_tr_pad. exact Hp.
Qed.

Lemma urlsafe_b64decode_padded (bs rest : bytes) : bytes_ok bs ->
  (length bs mod 3 <> 0)%nat ->
  urlsafe_b64decode (urlsafe_b64encode bs ++ rest) = Ok bs.
Proof.
  intros Hok Hm. unfold urlsafe_b64decode, a2b_base64, urlsafe_b64encode.
  rewrite map_app. rewrite a2b_loop_b2a_padded by assumption. reflexivity.
Qed.

(** ** UTF-8 *)

Lemma utf8_encode_char_some (c : Z) :
  (exists b, utf8_encode_char c = Some b) <-> scalar_value c.
Proof.
  unfold utf8_encode_char, scalar_value.
  destruct (Z.ltb_spec c 0), (Z.ltb_spec 0x10FFFF c), (Z.ltb_spec c 0x80),
    (Z.ltb_spec c 0x800), (Z.leb_spec 0xD800 c), (Z.leb_spec c 0xDFFF),
    (Z.ltb_spec c 0x10000);
  cbv beta iota delta [orb andb];
  (split; [intros [b Hb]; (discriminate || lia) |
           intros [Hlo Hhi]; (eexists; reflexivity) || (exfalso; lia)]).
Qed.

Lemma utf8_encodable_iff (s : pystr) :
  utf8_encodable s = true <-> Forall scalar_value s.
Proof.
  unfold utf8_encodable. induction s as [|c s IH]; cbn [utf8_encode].
  - split; constructor.
  - rewrite Forall_cons_iff, <- utf8_encode_char_some, <- IH.
    destruct (utf8_encode_char c), (utf8_encode s); split; intros H;
      try discriminate H;
      try (destruct H as [[b' Hb] H']; discriminate Hb);
      try (destruct H as [_ H']; discriminate H');
      try (split; [eexists; reflexivity | reflexivity]); reflexivity.
Qed.

(** ** PKCS7 *)

Lemma pkcs7_pad_length (data : bytes) :
  length (pkcs7_pad data) = (16 * (length data / 16 + 1))%nat.
Proof.
  unfold pkcs7_pad. rewrite length_app, repeat_length.
  pose proof (Nat.mod_upper_bound (length data) 16 ltac:(lia)).
  pose proof (Nat.div_mod_eq (length data) 16). lia.
Qed.

Lemma pkcs7_unpad_nonempty (x y : bytes) : pkcs7_unpad x = Some y -> length x <> 0%nat.
Proof.
  unfold pkcs7_unpad. destruct (Nat.eqb_spec (length x) 0); [discriminate|]. auto.
Qed.

(** ** Fernet keys and tokens *)

Lemma bytes_from_decode_data_ascii (s : pystr) :
  ascii_ok s -> bytes_from_decode_data_str s = Ok s.
Proof.
  intros H. unfold bytes_from_decode_data_str.
  replace (forallb _ s) with true; [reflexivity|]. symmetry.
  apply forallb_forall. intros x Hx. apply Forall_forall with (x := x) in H; [|exact Hx].
  apply andb_true_iff. split; [apply Z.leb_le | apply Z.ltb_lt]; lia.
Qed.

Lemma fernet_init_str_encoded (k : bytes) :
  bytes_ok k -> length k = 32%nat ->
  fernet_init (KeyStr (urlsafe_b64encode k)) = Ok (mkFernet (firstn 16 k) (skipn 16 k)).
Proof.
  intros Hok Hk. unfold fernet_init, urlsafe_b64decode_str.
  rewrite bytes_from_decode_data_ascii by (apply urlsafe_b64encode_ascii; exact Hok).
  cbv beta iota delta [rbind]. rewrite urlsafe_b64_roundtrip by exact Hok.
  rewrite Hk. reflexivity.
Qed.

Lemma list_Z_eqb_length (a b : list Z) : list_Z_eqb a b = true -> length a = length b.
Proof. intros H. apply list_Z_eqb_spec in H. subst. reflexivity. Qed.

Section DecryptShape.
Context {CB : CryptoBackend}.
Hypothesis Hdec : forall k iv c, length (aes_cbc_decrypt k iv c) = length c.

Lemma fernet_decrypt_shape (f : Fernet) (T p : bytes) :
  fernet_decrypt f T = Ok p ->
  exists d, urlsafe_b64decode T = Ok d /\ hd 0 d = 128 /\ (73 <= length d)%nat /\
    ((length d - 57) mod 16 = 0)%nat /\
    hmac_digest SHA256 (signing_key f) (firstn (length d - 32) d) = skipn (length d - 32) d.
Proof.
  unfold fernet_decrypt. cbv zeta. intros H.
  destruct (urlsafe_b64decode T) as [d|e] eqn:Ed; cbv beta iota delta [rbind] in H;
    [|discriminate].
  exists d. split; [reflexivity|].
  destruct d as [|d0 d']; [discriminate|].
  destruct (Z.eqb_spec d0 128) as [->|]; cbn [negb] in H; [|discriminate].
  destruct (Nat.ltb_spec (length (128 :: d')) 9); [discriminate|].
  set (n := (length (128%Z :: d') - 32)%nat) in *.
  destruct (list_Z_eqb _ _) eqn:Em; cbn [negb] in H; [|discriminate].
  destruct (Nat.eqb_spec (length (firstn 16 (skipn 9 (128 :: d')))) 16);
    cbn [negb] in H; [|discriminate].
  destruct (Nat.eqb_spec (length (skipn 25 (firstn n (128 :: d'))) mod 16) 0) as [Hal|];
    cbn [negb] in H; [|discriminate].
  destruct (pkcs7_unpad _) eqn:Eu; [|discriminate].
  apply pkcs7_unpad_nonempty in Eu. rewrite Hdec in Eu.
  apply list_Z_eqb_spec in Em.
  rewrite length_skipn, length_firstn in Eu, Hal.
  assert (Hn : (n <= length (128%Z :: d'))%nat) by (unfold n; lia).
  rewrite Nat.min_l in Eu, Hal by exact Hn.
  assert (Hq : (16 <= n - 25)%nat).
  { destruct (n - 25)%nat as [|m] eqn:E; [contradiction|].
    destruct (Nat.lt_ge_cases (S m) 16); [|lia].
    rewrite Nat.mod_small in Hal; lia. }
  split; [reflexivity|]. split; [unfold n in Hq; lia|]. split.
  - replace (length (128%Z :: d') - 57)%nat with (n - 25)%nat by (unfold n in *; lia).
    exact Hal.
  - exact Em.
Qed.

End DecryptShape.

(** ** Service-level helpers *)

Ltac split_results :=
  repeat (cbv beta iota;
          match goal with
          | |- context [match ?x with Ok _ => _ | Err _ => _ end] => destruct x
          end);
  reflexivity.

Lemma decrypt_same_decoding `{CryptoBackend} (T1 T2 : pystr) (b1 b2 : bytes) (w : World) :
  str_encode T1 = Ok b1 -> str_encode T2 = Ok b2 ->
  urlsafe_b64decode b1 = urlsafe_b64decode b2 ->
  decrypt T1 w = decrypt T2 w /\
  (forall S, decrypt_for_user T1 S w = decrypt_for_user T2 S w).
Proof.
  intros H1 H2 Hd.
  assert (Hf : forall f, fernet_decrypt f b1 = fernet_decrypt f b2)
    by (intros f; unfold fernet_decrypt; rewrite Hd; reflexivity).
  split; [|intros S].
  - unfold decrypt, bind, get_self, lift. cbv beta iota. rewrite H1, H2.
    destruct (fernet_init _); cbv beta iota; [|reflexivity]. rewrite Hf. reflexivity.
  - unfold decrypt_for_user, bind, lift. cbv beta iota.
    destruct (str_encode S) as [sb|]; cbv beta iota; [|reflexivity].
    destruct (urlsafe_b64decode sb); cbv beta iota; [|reflexivity].
    destruct (_derive_key _ w) as [[k|e] w1]; cbv beta iota; [|reflexivity].
    destruct (fernet_init _); cbv beta iota; [|reflexivity].
    rewrite H1, H2. cbv beta iota. rewrite Hf. reflexivity.
Qed.

Lemma str_encode_app_ascii (s1 s2 : pystr) :
  ascii_ok s1 -> ascii_ok s2 -> str_encode (s1 ++ s2) = Ok (s1 ++ s2).
Proof.
  intros H1 H2. apply str_encode_ascii, Forall_app. split; assumption.
Qed.

(** * Further properties of the service and the library code it calls *)

(** [base64.urlsafe_b64encode] output: decodes back, has length
    4 * ceil(n / 3), and uses only the URL-safe alphabet and [=]. *)
Theorem urlsafe_b64encode_spec (bs : bytes) :
  bytes_ok bs ->
  urlsafe_b64decode (urlsafe_b64encode bs) = Ok bs /\
  length (urlsafe_b64encode bs) = (4 * ((length bs + 2) / 3))%nat /\
  Forall (fun c => urlsafe_alphabet c \/ c = BASE64_PAD) (urlsafe_b64encode bs).
Proof.
  intros Hok. split; [|split].
  - apply urlsafe_b64_roundtrip. exact Hok.
  - unfold urlsafe_b64encode. rewrite length_map. apply b2a_base64_len.
  - apply urlsafe_b64encode_alphabet. exact Hok.
Qed.

Lemma urlsafe_b64encode_spec_witness :
  urlsafe_b64decode (urlsafe_b64encode [0; 1; 254; 255]) = Ok [0; 1; 254; 255] /\
  length (urlsafe_b64encode [0; 1; 254; 255]) = (4 * ((length [0; 1; 254; 255] + 2) / 3))%nat /\
  Forall (fun c => urlsafe_alphabet c \/ c = BASE64_PAD) (urlsafe_b64encode [0; 1; 254; 255]).
Proof.
  apply urlsafe_b64encode_spec. repeat constructor; lia.
Defined.

(** [base64.urlsafe_b64decode] stops at a complete padding sequence: when
    the encoded length is not a multiple of 3, anything appended to the
    encoding is ignored. *)
Theorem urlsafe_b64decode_ignores_suffix (bs rest : bytes) :
  bytes_ok bs -> (length bs mod 3 <> 0)%nat ->
  urlsafe_b64decode (urlsafe_b64encode bs ++ rest) = Ok bs.
Proof. apply urlsafe_b64decode_padded. Qed.

Lemma urlsafe_b64decode_ignores_suffix_witness :
  urlsafe_b64decode (urlsafe_b64encode [0] ++ [33; 65; 66]) = Ok [0].
Proof.
  apply urlsafe_b64decode_ignores_suffix.
  - repeat constructor; lia.
  - cbn. discriminate.
Defined.

(** [base64.urlsafe_b64decode] is lenient: a character outside the
    alphabet (other than [=]) is skipped wherever it occurs, and [+] and [/]
    are read like [-] and [_]. *)
Theorem urlsafe_b64decode_lenient (s1 s2 : bytes) (c : Z) :
  a2b_index (urlsafe_decode_tr c) = 255 -> c <> BASE64_PAD ->
  urlsafe_b64decode (s1 ++ c :: s2) = urlsafe_b64decode (s1 ++ s2) /\
  (forall s, urlsafe_b64decode (map urlsafe_decode_tr s) = urlsafe_b64decode s).
Proof.
  intros Hc Hp. split; [apply urlsafe_b64decode_skip; assumption|].
  intros s. unfold urlsafe_b64decode. rewrite map_map.
  f_equal. apply map_ext. apply urlsafe_decode_tr_idem.
Qed.

Lemma urlsafe_b64decode_lenient_witness :
  urlsafe_b64decode (str_AA ++ 33 :: str_AA) = urlsafe_b64decode (str_AA ++ str_AA) /\
  (forall s, urlsafe_b64decode (map urlsafe_decode_tr s) = urlsafe_b64decode s).
Proof.
  apply urlsafe_b64decode_lenient.
  - reflexivity.
  - discriminate.
Defined.

(** [str.encode()] succeeds exactly on strings of Unicode scalar values
    (no lone surrogates), and [bytes.decode()] inverts it. *)
Theorem str_encode_decode (s : pystr) :
  (utf8_encodable s = true <-> Forall scalar_value s) /\
  (forall b, str_encode s = Ok b -> bytes_decode b = Ok s).
Proof.
  split; [apply utf8_encodable_iff|]. intros b. apply bytes_decode_encode.
Qed.

(** PKCS7 padding (block size 128 bits) adds 1 to 16 bytes up to the next
    multiple of 16, and unpadding removes exactly them. *)
Theorem pkcs7_pad_unpad (data : bytes) :
  pkcs7_unpad (pkcs7_pad data) = Some data /\
  length (pkcs7_pad data) = (16 * (length data / 16 + 1))%nat /\
  (length data < length (pkcs7_pad data) <= length data + 16)%nat.
Proof.
  split; [apply pkcs7_unpad_pad|]. rewrite pkcs7_pad_length. split; [reflexivity|].
  pose proof (Nat.mod_upper_bound (length data) 16 ltac:(lia)).
  pose proof (Nat.div_mod_eq (length data) 16). lia.
Qed.

(** [Fernet(key)] accepts the URL-safe base64 of any 32 bytes (the form
    [Fernet.generate_key] produces) and splits them into a 16-byte signing
    key and a 16-byte encryption key. *)
Theorem fernet_accepts_encoded_key (k : bytes) :
  bytes_ok k -> length k = 32%nat ->
  is_fernet_key (urlsafe_b64encode k) = true /\
  fernet_init (KeyStr (urlsafe_b64encode k)) = Ok (mkFernet (firstn 16 k) (skipn 16 k)).
Proof.
  intros Hok Hk. unfold is_fernet_key.
  rewrite fernet_init_str_encoded by assumption. split; reflexivity.
Qed.

Lemma fernet_accepts_encoded_key_witness :
  is_fernet_key (urlsafe_b64encode (repeat 7 32)) = true /\
  fernet_init (KeyStr (urlsafe_b64encode (repeat 7 32)))
  = Ok (mkFernet (firstn 16 (repeat 7 32)) (skipn 16 (repeat 7 32))).
Proof.
  apply fernet_accepts_encoded_key.
  - vm_compute. repeat constructor; discriminate.
  - reflexivity.
Defined.

(** [encrypt] returns the URL-safe base64 of version byte 0x80, the
    8-byte big-endian reading of [time.time()], the [os.urandom(16)] IV,
    the ciphertext of the PKCS7-padded plaintext and the HMAC-SHA256 of all
    of these under the signing key; the token's length depends only on the
    UTF-8 length of the plaintext. *)
Theorem encrypt_token_layout `{CB : CryptoBackend} (HL : BackendLaws CB)
    (P : pystr) (w : World) :
  is_fernet_key (secret_key (self w)) = true -> utf8_encodable P = true ->
  env_ok (env w) ->
  exists T f data ct,
    fernet_init (KeyStr (secret_key (self w))) = Ok f /\
    str_encode P = Ok data /\
    encrypt P w = (Ok T, advance w) /\
    ct = aes_cbc_encrypt (encryption_key f) (next_iv w) (pkcs7_pad data) /\
    length ct = (16 * (length data / 16 + 1))%nat /\
    urlsafe_b64decode T =
      Ok (([128] ++ be_bytes 8 (now w) ++ next_iv w ++ ct)
          ++ hmac_digest SHA256 (signing_key f) ([128] ++ be_bytes 8 (now w) ++ next_iv w ++ ct)) /\
    length T = (4 * ((16 * (length data / 16) + 75) / 3))%nat.
Proof.
  intros Hk HP He. unfold is_fernet_key in Hk.
  destruct (fernet_init (KeyStr (secret_key (self w)))) as [f|] eqn:Hf; [|discriminate].
  destruct (utf8_encodable_ok P HP) as [data Hd].
  assert (Hdb := str_encode_bytes _ _ Hd).
  destruct (iv_ok w He) as [Hiv Hivb].
  set (ct := aes_cbc_encrypt (encryption_key f) (next_iv w) (pkcs7_pad data)).
  assert (Hct : length ct = (16 * (length data / 16 + 1))%nat).
  { unfold ct. rewrite (aes_encrypt_len CB HL) by apply pkcs7_pad_len.
    apply pkcs7_pad_length. }
  exists (fernet_token f data (now w) (next_iv w)), f, data, ct.
  split; [reflexivity|]. split; [exact Hd|]. split; [apply (encrypt_eq HL); assumption|].
  split; [reflexivity|]. split; [exact Hct|]. split.
  - apply (fernet_token_decode HL); assumption.
  - unfold fernet_token, urlsafe_b64encode. rewrite length_map, b2a_base64_len.
    rewrite length_app, (hmac_sha256_len CB HL). unfold basic_parts.
    rewrite !length_app, be_bytes_len, Hiv. fold ct. rewrite Hct. cbn [length].
    f_equal. f_equal. lia.
Qed.

Lemma encrypt_token_layout_witness :
  exists T f data ct,
    fernet_init (KeyStr (secret_key (self toy_world))) = Ok f /\
    str_encode str_super_secret = Ok data /\
    encrypt str_super_secret toy_world = (Ok T, advance toy_world) /\
    ct = aes_cbc_encrypt (encryption_key f) (next_iv toy_world) (pkcs7_pad data) /\
    length ct = (16 * (length data / 16 + 1))%nat /\
    urlsafe_b64decode T =
      Ok (([128] ++ be_bytes 8 (now toy_world) ++ next_iv toy_world ++ ct)
          ++ hmac_digest SHA256 (signing_key f)
               ([128] ++ be_bytes 8 (now toy_world) ++ next_iv toy_world ++ ct)) /\
    length T = (4 * ((16 * (length data / 16) + 75) / 3))%nat.
Proof.
  apply (encrypt_token_layout toy_laws str_super_secret toy_world).
  - vm_compute. reflexivity.
  - vm_compute. reflexivity.
  - exact toy_env_ok.
Defined.

(** What [decrypt] accepts: if it returns a plaintext, the world is
    unchanged, the helper's secret is a Fernet key, and the token decodes to
    bytes that start with 0x80, have length at least 73 and 57 plus a
    multiple of 16, and end in the HMAC-SHA256 of the rest under the signing
    key (given that CBC decryption preserves length). *)
Theorem decrypt_accepts_only_signed `{CB : CryptoBackend}
    (Hdec : forall k iv c, length (aes_cbc_decrypt k iv c) = length c)
    (T P : pystr) (w w' : World) :
  decrypt T w = (Ok P, w') ->
  w' = w /\
  exists f tb d,
    fernet_init (KeyStr (secret_key (self w))) = Ok f /\
    str_encode T = Ok tb /\ urlsafe_b64decode tb = Ok d /\
    hd 0 d = 128 /\ (73 <= length d)%nat /\ ((length d - 57) mod 16 = 0)%nat /\
    hmac_digest SHA256 (signing_key f) (firstn (length d - 32) d) = skipn (length d - 32) d.
Proof.
  unfold decrypt, bind, get_self, lift. cbv beta iota. intros H.
  destruct (fernet_init (KeyStr (secret_key (self w)))) as [f|] eqn:Hf;
    cbv beta iota in H; [|discriminate].
  destruct (str_encode T) as [tb|] eqn:Ht; cbv beta iota in H; [|discriminate].
  destruct (fernet_decrypt f tb) as [pt|] eqn:Hp; cbv beta iota in H; [|discriminate].
  split; [congruence|].
  destruct (fernet_decrypt_shape Hdec f tb pt Hp) as (d & Hd & Hrest).
  exists f, tb, d. repeat split; try reflexivity; try assumption; apply Hrest.
Qed.

Lemma forallb_bytes_ok (bs : bytes) : forallb is_byte bs = true -> bytes_ok bs.
Proof.
  intros H. apply Forall_forall. intros b Hb. rewrite forallb_forall in H.
  specialize (H b Hb). unfold is_byte in H. apply andb_prop in H as [H1 H2]. lia.
Qed.

Lemma forallb_ascii_ok (s : list Z) :
  forallb (fun c => (0 <=? c) && (c <? 128)) s = true -> ascii_ok s.
Proof.
  intros H. apply Forall_forall. intros c Hc. rewrite forallb_forall in H.
  specialize (H c Hc). apply andb_prop in H as [H1 H2]. lia.
Qed.

Lemma decrypt_accepts_only_signed_witness :
  toy_world = toy_world /\
  exists f tb d,
    fernet_init (KeyStr (secret_key (self toy_world))) = Ok f /\
    str_encode toy_token = Ok tb /\ urlsafe_b64decode tb = Ok d /\
    hd 0 d = 128 /\ (73 <= length d)%nat /\ ((length d - 57) mod 16 = 0)%nat /\
    hmac_digest SHA256 (signing_key f) (firstn (length d - 32) d) = skipn (length d - 32) d.
Proof.
  apply (decrypt_accepts_only_signed (CB := ToyBackend) (fun k iv c => eq_refl)
           toy_token str_super_secret toy_world toy_world).
  vm_compute. reflexivity.
Defined.

(** [decrypt] under a valid key raises [InvalidToken] for every token string
    whose base64 decoding fails, is empty, does not start with 0x80, or is
    shorter than 32 bytes (such as ["invalid-data"]). *)
Theorem decrypt_rejects_malformed `{CB : CryptoBackend} (HL : BackendLaws CB)
    (T : pystr) (w : World) (f : Fernet) (tb : bytes) :
  fernet_init (KeyStr (secret_key (self w))) = Ok f ->
  str_encode T = Ok tb ->
  (forall d, urlsafe_b64decode tb = Ok d -> hd 0 d <> 128 \/ (length d < 32)%nat) ->
  decrypt T w = (Err InvalidToken, w).
Proof.
  intros Hf Ht Hd. rewrite (decrypt_eq _ w f Hf), Ht. cbv beta iota delta [rbind].
  unfold fernet_decrypt. cbv zeta.
  destruct (urlsafe_b64decode tb) as [d|e] eqn:Ed; cbv beta iota delta [rbind];
    [|reflexivity].
  destruct (Hd d eq_refl) as [Hv|Hl].
  - destruct d as [|d0 d']; [reflexivity|]. cbn [hd] in Hv.
    destruct (Z.eqb_spec d0 128); [contradiction|]. reflexivity.
  - destruct d as [|d0 d']; [reflexivity|].
    destruct (negb (d0 =? 128)); [reflexivity|].
    destruct (length (d0 :: d') <? 9)%nat; [reflexivity|].
    replace (length (d0 :: d') - 32)%nat with 0%nat by lia.
    rewrite firstn_O, skipn_O.
    destruct (list_Z_eqb _ _) eqn:E; [|reflexivity].
    apply list_Z_eqb_length in E. rewrite (hmac_sha256_len CB HL) in E. lia.
Qed.

Lemma decrypt_rejects_malformed_witness :
  decrypt str_invalid_data toy_world = (Err InvalidToken, toy_world).
Proof.
  apply (decrypt_rejects_malformed toy_laws str_invalid_data toy_world
           (mkFernet (map Z.of_nat (seq 0 16)) (map Z.of_nat (seq 16 16)))
           str_invalid_data).
  - vm_compute. reflexivity.
  - vm_compute. reflexivity.
  - intros d Hd. vm_compute in Hd. injection Hd as <-. left. simpl. discriminate.
Defined.

Lemma decrypt_pure `{CryptoBackend} (T : pystr) (w1 w2 : World) :
  self w1 = self w2 -> decrypt T w1 = (fst (decrypt T w2), w1).
Proof.
  intros Hs. unfold decrypt, bind, get_self, lift. rewrite Hs. split_results.
Qed.

Lemma decrypt_for_user_pure `{CryptoBackend} (T S : pystr) (w1 w2 : World) :
  self w1 = self w2 -> decrypt_for_user T S w1 = (fst (decrypt_for_user T S w2), w1).
Proof.
  intros Hs. unfold decrypt_for_user, _derive_key, bind, get_self, lift, ret.
  rewrite Hs. split_results.
Qed.

(** [decrypt] and [decrypt_for_user] pass no [ttl] and read neither the
    clock nor [os.urandom]: their result depends only on the helper, so a
    token never expires, and the world is left as it was. *)
Theorem decrypt_never_expires `{CB : CryptoBackend} (T : pystr) (w1 w2 : World) :
  self w1 = self w2 ->
  decrypt T w1 = (fst (decrypt T w2), w1) /\
  (forall S, decrypt_for_user T S w1 = (fst (decrypt_for_user T S w2), w1)).
Proof.
  intros Hs. split; [apply decrypt_pure, Hs|]. intros S. apply decrypt_for_user_pure, Hs.
Qed.

Lemma decrypt_never_expires_witness :
  decrypt toy_token (advance (advance toy_world)) = (fst (decrypt toy_token toy_world),
                                                      advance (advance toy_world)) /\
  (forall S, decrypt_for_user toy_token S (advance (advance toy_world))
             = (fst (decrypt_for_user toy_token S toy_world), advance (advance toy_world))).
Proof.
  apply decrypt_never_expires. reflexivity.
Defined.

(** A token string with padding (its decoded length is not a multiple of
    3) is still accepted, with the same result, when ASCII text is appended
    to it: [decrypt] and [decrypt_for_user] behave on [T ++ rest] as on [T]. *)
Theorem decrypt_ignores_suffix `{CB : CryptoBackend} (d rest : bytes) (w : World) :
  bytes_ok d -> (length d mod 3 <> 0)%nat -> ascii_ok rest ->
  decrypt (urlsafe_b64encode d ++ rest) w = decrypt (urlsafe_b64encode d) w /\
  (forall S, decrypt_for_user (urlsafe_b64encode d ++ rest) S w
             = decrypt_for_user (urlsafe_b64encode d) S w).
Proof.
  intros Hok Hm Hr. assert (Ha := urlsafe_b64encode_ascii d Hok).
  apply decrypt_same_decoding with (b1 := urlsafe_b64encode d ++ rest)
                                   (b2 := urlsafe_b64encode d).
  - apply str_encode_app_ascii; assumption.
  - apply str_encode_ascii. exact Ha.
  - rewrite urlsafe_b64decode_padded, urlsafe_b64_roundtrip by assumption. reflexivity.
Qed.

Lemma decrypt_ignores_suffix_witness :
  decrypt (urlsafe_b64encode toy_token_bytes ++ str_AB) toy_world
  = decrypt (urlsafe_b64encode toy_token_bytes) toy_world /\
  (forall S, decrypt_for_user (urlsafe_b64encode toy_token_bytes ++ str_AB) S toy_world
             = decrypt_for_user (urlsafe_b64encode toy_token_bytes) S toy_world).
Proof.
  apply decrypt_ignores_suffix.
  - apply forallb_bytes_ok. vm_compute. reflexivity.
  - vm_compute. discriminate.
  - apply forallb_ascii_ok. vm_compute. reflexivity.
Defined.

(** An ASCII character outside the base64 alphabet (other than [=]) can be
    inserted anywhere in a token string without changing what [decrypt] and
    [decrypt_for_user] return. *)
Theorem decrypt_ignores_non_alphabet `{CB : CryptoBackend} (s1 s2 : pystr) (c : Z)
    (w : World) :
  ascii_ok (s1 ++ c :: s2) -> a2b_index (urlsafe_decode_tr c) = 255 -> c <> BASE64_PAD ->
  decrypt (s1 ++ c :: s2) w = decrypt (s1 ++ s2) w /\
  (forall S, decrypt_for_user (s1 ++ c :: s2) S w = decrypt_for_user (s1 ++ s2) S w).
Proof.
  intros Ha Hc Hp.
  apply decrypt_same_decoding with (b1 := s1 ++ c :: s2) (b2 := s1 ++ s2).
  - apply str_encode_ascii. exact Ha.
  - apply str_encode_ascii. apply Forall_app in Ha as [H1 H2].
    apply Forall_app. split; [exact H1|]. inversion H2. assumption.
  - apply urlsafe_b64decode_skip; assumption.
Qed.

Lemma decrypt_ignores_non_alphabet_witness :
  decrypt (firstn 10 toy_token ++ 33 :: skipn 10 toy_token) toy_world
  = decrypt (firstn 10 toy_token ++ skipn 10 toy_token) toy_world /\
  (forall S, decrypt_for_user (firstn 10 toy_token ++ 33 :: skipn 10 toy_token) S toy_world
             = decrypt_for_user (firstn 10 toy_token ++ skipn 10 toy_token) S toy_world).
Proof.
  apply decrypt_ignores_non_alphabet.
  - apply forallb_ascii_ok. vm_compute. reflexivity.
  - reflexivity.
  - discriminate.
Defined.

Lemma fernet_init_str_derived `{CB : CryptoBackend} (HL : BackendLaws CB) (salt pw : bytes) :
  fernet_init (KeyStr (urlsafe_b64encode (pbkdf2_hmac SHA256 32 salt 100000 pw)))
  = Ok (user_fernet salt pw).
Proof.
  rewrite fernet_init_str_encoded;
    [reflexivity | apply (pbkdf2_bytes CB HL) | rewrite (pbkdf2_len CB HL) by lia; reflexivity].
Qed.

(** Per-user mode is fixed mode under the derived key: [decrypt_for_user T S]
    returns what [decrypt T] returns on a helper whose secret is
    [_derive_key(salt)], and [encrypt_for_user P S] returns the token
    [encrypt P] returns on that helper in the same world. *)
Theorem per_user_is_fixed_mode `{CB : CryptoBackend} (HL : BackendLaws CB)
    (P S : pystr) (w : World) (sb salt pw : bytes) :
  str_encode S = Ok sb -> urlsafe_b64decode sb = Ok salt ->
  str_encode (secret_key (self w)) = Ok pw ->
  let wk := mkWorld (mkHelper (urlsafe_b64encode (pbkdf2_hmac SHA256 32 salt 100000 pw)))
                    (env w) in
  (forall T, decrypt_for_user T S w = (fst (decrypt T wk), w)) /\
  (utf8_encodable P = true -> env_ok (env w) ->
   exists T, encrypt_for_user P S w = (Ok T, advance w) /\
             encrypt P wk = (Ok T, advance wk)).
Proof.
  intros Hs Hsalt Hpw wk.
  assert (Hf : fernet_init (KeyStr (secret_key (self wk))) = Ok (user_fernet salt pw))
    by apply (fernet_init_str_derived HL).
  split.
  - intros T. rewrite (decrypt_for_user_eq HL T S w sb salt pw) by assumption.
    rewrite (decrypt_eq T wk _ Hf). reflexivity.
  - intros HP He. destruct (utf8_encodable_ok P HP) as [data Hd].
    exists (fernet_token (user_fernet salt pw) data (now w) (next_iv w)). split.
    + apply (encrypt_for_user_eq HL P S w sb); assumption.
    + apply (encrypt_eq HL P wk _ data Hf Hd He).
Qed.

Lemma per_user_is_fixed_mode_witness :
  let wk := mkWorld (mkHelper (urlsafe_b64encode
              (pbkdf2_hmac SHA256 32 [0; 0; 0] 100000 toy_key))) (env toy_world) in
  (forall T, decrypt_for_user T str_AAAA toy_world = (fst (decrypt T wk), toy_world)) /\
  exists T, encrypt_for_user str_super_secret str_AAAA toy_world = (Ok T, advance toy_world) /\
            encrypt str_super_secret wk = (Ok T, advance wk).
Proof.
  destruct (per_user_is_fixed_mode toy_laws str_super_secret str_AAAA toy_world
              str_AAAA [0; 0; 0] toy_key) as [A B].
  - vm_compute. reflexivity.
  - vm_compute. reflexivity.
  - vm_compute. reflexivity.
  - split; [exact A|]. apply B; [vm_compute; reflexivity | exact toy_env_ok].
Defined.
